(** * Preprocessing utilities of the Airbnb pipeline

    A shallow embedding of [scripts/utils/preprocessing.py]:
    [one_hot_encoding], [XGBFeatureSelection.feature_importances_],
    [_sanitize_holiday_name] and [process_holidays], together with the
    parts of pandas, numpy, xgboost and [datetime] that these functions
    call.  Python exceptions are values of an error monad; a data frame is
    an index and an ordered list of named, typed columns; a row ([Series])
    is a finite map from labels to integers. *)

From Stdlib Require Import ZArith Ascii String List.
From stdpp Require Import base decidable option list sorting strings pretty
  gmap fin_maps.

Local Open Scope Z_scope.

(** * Part I: the program *)

(** ** Exceptions and the error monad *)

Module Py.

(** The exceptions the code under study lets escape.  [Unmodelled] is not
    a Python exception: it marks what lies outside the fragment described
    here, a [concat] of frames whose indexes differ and a reference that
    names no object of the store.  No run of the functions below reaches
    either. *)
Inductive exn : Set :=
| KeyError
| ValueError
| IndexError
| XGBoostError
| Unmodelled.

Inductive result (A : Type) : Type :=
| Ok (a : A)
| Raise (e : exn).
Arguments Ok {A} a.
Arguments Raise {A} e.

Definition bind {A B} (m : result A) (k : A → result B) : result B :=
  match m with
  | Ok a => k a
  | Raise e => Raise e
  end.

(** A [for] loop over [items] whose body may raise. *)
Fixpoint for_each {A S} (body : S → A → result S) (items : list A) (s : S)
  : result S :=
  match items with
  | [] => Ok s
  | x :: items' => bind (body s x) (for_each body items')
  end.

End Py.

Import Py.

Global Instance exn_eq_dec : EqDecision exn.
Proof. solve_decision. Defined.

Global Instance result_eq_dec {A} `{EqDecision A} : EqDecision (result A).
Proof. solve_decision. Defined.

Global Instance result_ret : MRet result := @Ok.
Global Instance result_bind : MBind result := λ A B k m, Py.bind m k.

(** ** Byte strings

    Python 2 [str] values are byte strings; [isalpha], [isdigit] and
    [lower] act on the ASCII letters and digits only. *)

Module Str.

Definition between (lo hi c : ascii) : bool :=
  Ascii.leb lo c && Ascii.leb c hi.

Definition isupper (c : ascii) : bool := between "A" "Z" c.
Definition islower (c : ascii) : bool := between "a" "z" c.
Definition isalpha (c : ascii) : bool := isupper c || islower c.
Definition isdigit (c : ascii) : bool := between "0" "9" c.

(** [c.lower()] on one byte. *)
Definition lower_char (c : ascii) : ascii :=
  if isupper c then ascii_of_N (N_of_ascii c + 32) else c.

Fixpoint lower (s : string) : string :=
  match s with
  | EmptyString => EmptyString
  | String c s' => String (lower_char c) (lower s')
  end.

(** [s.replace(old, new)] for one-character [old] and [new]. *)
Fixpoint replace (s : string) (old new : ascii) : string :=
  match s with
  | EmptyString => EmptyString
  | String c s' =>
      String (if Ascii.eqb c old then new else c) (replace s' old new)
  end.

(** ["".join(chars)] for a list of one-character strings. *)
Definition join (chars : list ascii) : string := string_of_list_ascii chars.

(** [s[1:]] *)
Definition tail (s : string) : string :=
  match s with
  | EmptyString => EmptyString
  | String _ s' => s'
  end.

(** [s.strip()]: white space removed at both ends. *)
Fixpoint lstrip (cs : list ascii) : list ascii :=
  match cs with
  | c :: cs' => if Ascii.is_space c then lstrip cs' else cs
  | [] => []
  end.

Definition strip (cs : list ascii) : list ascii :=
  reverse (lstrip (reverse (lstrip cs))).

Definition digit_value (c : ascii) : Z := Z.of_N (N_of_ascii c) - 48.

(** The value of a run of decimal digits, [None] if another character
    occurs in it. *)
Fixpoint digits (acc : Z) (cs : list ascii) : option Z :=
  match cs with
  | [] => Some acc
  | c :: cs' =>
      if isdigit c then digits (10 * acc + digit_value c) cs' else None
  end.

Definition number (cs : list ascii) : option Z :=
  match cs with
  | [] => None
  | _ => digits 0 cs
  end.

(** [int(s)]: optional white space around an optional sign and at least one
    decimal digit; anything else is a [ValueError]. *)
Definition int (s : string) : result Z :=
  let cs := strip (list_ascii_of_string s) in
  let signed :=
    match cs with
    | "-"%char :: ds => Z.opp <$> number ds
    | "+"%char :: ds => number ds
    | _ => number cs
    end in
  match signed with
  | Some z => Ok z
  | None => Raise ValueError
  end.

End Str.

(** ** Data frames *)

(** A column has one dtype: [object] (strings, [None] or NaN for a missing
    value) or integer.  The 0/1 indicator columns are integer columns here;
    pandas has given them a float, a small integer or a boolean dtype over
    its versions, which only changes how their own values would print. *)
Inductive column : Type :=
| ObjCol (values : list (option string))
| IntCol (values : list Z).

Global Instance column_eq_dec : EqDecision column.
Proof. solve_decision. Defined.

Record Series := { s_index : list Z; s_values : column }.

(** Rows are named by [index]; [columns] keeps the order of the columns,
    and pandas allows two columns to carry the same label. *)
Record DataFrame := frame { index : list Z; columns : list (string * column) }.

Definition height (c : column) : nat :=
  match c with
  | ObjCol values => length values
  | IntCol values => length values
  end.

Definition labels (data : DataFrame) : list string := (columns data).*1.

Definition nrows (data : DataFrame) : nat := length (index data).

(** Every column has one entry per row. *)
Definition well_formed (data : DataFrame) : Prop :=
  Forall (λ c, height c.2 = nrows data) (columns data).

(** The category of a row: the text [get_dummies] puts after the prefix,
    [None] for a missing value. *)
Definition categories (c : column) : list (option string) :=
  match c with
  | ObjCol values => values
  | IntCol values => (λ z, Some (pretty z)) <$> values
  end.

(** The entry of an integer column at row [i]. *)
Definition cell (c : column) (i : nat) : option Z :=
  match c with
  | ObjCol _ => None
  | IntCol values => values !! i
  end.

(** What [data[label]] is: a series when one column carries the label, a
    frame of all the columns that carry it when several do. *)
Inductive selection : Type :=
| OneColumn (s : Series)
| SeveralColumns (d : DataFrame).

(** [data[label]] *)
Definition getitem (data : DataFrame) (label : string) : result selection :=
  match filter (λ c, c.1 = label) (columns data) with
  | [] => Raise KeyError
  | [c] => Ok (OneColumn {| s_index := index data; s_values := c.2 |})
  | cs => Ok (SeveralColumns {| index := index data; columns := cs |})
  end.

(** The distinct values of a series, missing ones left out, in sorted
    order. *)
Definition levels_obj (values : list (option string)) : list string :=
  merge_sort String.le (remove_dups (omap id values)).

Definition levels_int (values : list Z) : list Z :=
  merge_sort Z.le (remove_dups values).

Definition dummy_name (prefix level : string) : string :=
  prefix +:+ "_" +:+ level.

Definition indicator {A} `{EqDecision A} (level : A) (values : list A)
  : column :=
  IntCol ((λ x, if decide (x = level) then 1 else 0) <$> values).

(** [pd.get_dummies(s, prefix=prefix)] for a series [s]: one 0/1 column per
    level, named [prefix_level]; a missing value sets none of them
    ([dummy_na] is off). *)
Definition _get_dummies_1d (s : Series) (prefix : string) : DataFrame :=
  {| index := s_index s;
     columns :=
       match s_values s with
       | ObjCol values =>
           (λ v, (dummy_name prefix v, indicator (Some v) values))
             <$> levels_obj values
       | IntCol values =>
           (λ z, (dummy_name prefix (pretty z), indicator z values))
             <$> levels_int values
       end |}.

Definition is_object (c : column) : bool :=
  match c with
  | ObjCol _ => true
  | IntCol _ => false
  end.

(** [pd.get_dummies(d, prefix=prefix)] for a frame [d]: the columns that
    are not of dtype [object] are kept as they are and come first; each
    [object] column is encoded as a series is, all under the one prefix. *)
Definition get_dummies_frame (d : DataFrame) (prefix : string) : DataFrame :=
  {| index := index d;
     columns :=
       filter (λ c, is_object c.2 = false) (columns d)
       ++ (filter (λ c, is_object c.2 = true) (columns d)
           ≫= λ c, columns (_get_dummies_1d
                              {| s_index := index d; s_values := c.2 |}
                              prefix)) |}.

(** [pd.get_dummies(data[feature], prefix=prefix)] *)
Definition get_dummies (x : selection) (prefix : string) : DataFrame :=
  match x with
  | OneColumn s => _get_dummies_1d s prefix
  | SeveralColumns d => get_dummies_frame d prefix
  end.

(** [data.drop([label], axis=1)]: every column called [label] goes; pandas
    of the time raises [ValueError] when there is none. *)
Definition drop_label (data : DataFrame) (label : string) : result DataFrame :=
  if decide (label ∈ labels data)
  then Ok {| index := index data;
             columns := filter (λ c, c.1 ≠ label) (columns data) |}
  else Raise ValueError.

(** [pd.concat((a, b), axis=1)] for frames over one index. *)
Definition concat (a b : DataFrame) : result DataFrame :=
  if decide (index a = index b)
  then Ok {| index := index a; columns := columns a ++ columns b |}
  else Raise Unmodelled.

(** ** [one_hot_encoding]

    The loop rebinds [data] in every round.  [drop(..., inplace=True)]
    changes the frame [data] is bound to: in the first round that is the
    caller's frame, afterwards the fresh frame of the previous [concat].
    The value returned does not depend on this sharing, and it is the
    returned value that is described here. *)

Fixpoint one_hot_encoding (data : DataFrame)
    (categorical_features : list string) : result DataFrame :=
  match categorical_features with
  | [] => Ok data
  | feature :: rest =>
      data_dummy ← (s ← getitem data feature; Ok (get_dummies s feature));
      data ← drop_label data feature;
      data ← concat data data_dummy;
      one_hot_encoding data rest
  end.

(** The names can all be encoded: each is a column, none comes twice. *)
Definition encodable (features : list string) (cols : list (string * column))
  : Prop :=
  NoDup features ∧ Forall (λ f, f ∈ cols.*1) features.

Global Instance encodable_dec features cols : Decision (encodable features cols).
Proof. unfold encodable. apply _. Defined.

(** The indicator columns made for [feature] out of [data], when
    [feature] names one column of it. *)
Definition block (data : DataFrame) (feature : string)
  : list (string * column) :=
  match getitem data feature with
  | Ok (OneColumn s) => columns (_get_dummies_1d s feature)
  | _ => []
  end.

(** The number of columns of [cols] that are set (hold 1) in row [i]. *)
Definition set_in_row (cols : list (string * column)) (i : nat) : nat :=
  length (filter (λ c, cell c.2 i = Some 1) cols).

(** The category of [feature] in row [i] of [data]. *)
Definition category_at (data : DataFrame) (feature : string) (i : nat)
  : option string :=
  match getitem data feature with
  | Ok (OneColumn s) => mjoin (categories (s_values s) !! i)
  | _ => None
  end.

(** No name of the list is the label of an indicator column made for a
    name of the list. *)
Definition plain (data : DataFrame) (features : list string) : Prop :=
  Forall (λ f, f ∉ (features ≫= block data).*1) features.

(** No name of the list is the label of an indicator column made for a
    name that comes before it in the list. *)
Fixpoint plain_in_turn (data : DataFrame) (features : list string) : Prop :=
  match features with
  | [] => True
  | f :: rest =>
      Forall (λ g, g ∉ (block data f).*1) rest ∧ plain_in_turn data rest
  end.

Global Instance plain_in_turn_dec data features :
  Decision (plain_in_turn data features).
Proof. induction features; apply _. Defined.

(** The frame a round of the loop leaves when [data[feature]] is [x]. *)
Definition next_frame (data : DataFrame) (feature : string) (x : selection)
  : DataFrame :=
  {| index := index data;
     columns :=
       filter (λ c, c.1 ≠ feature) (columns data)
       ++ columns (get_dummies x feature) |}.

(** Two users whose table has a column [g_F] beside the column [g]. *)
Definition users_shared : DataFrame :=
  frame [0; 1]
        [ ("g", ObjCol [Some "F"; Some "M"]); ("g_F", IntCol [5; 6]) ].

(** Three users, and two whose second has no gender on record. *)
Definition users : DataFrame :=
  frame [0; 1; 2]
        [ ("gender", ObjCol [Some "F"; Some "M"; Some "F"]);
          ("age", IntCol [31; 40; 25]) ].

Definition users_missing : DataFrame :=
  frame [0; 1] [ ("gender", ObjCol [Some "F"; None]) ].

(** ** [XGBFeatureSelection] *)

(** The part of the classifier the accessor reads: the declared feature
    count and, once fitted, the booster's score dictionary as the items
    [iteritems] yields, in that order. *)
Record XGBFeatureSelection := {
  _n_features : nat;
  _Booster : option (list (string * Z))
}.

Definition n_features (self : XGBFeatureSelection) : nat := _n_features self.

(** [self.booster()] of the scikit-learn wrapper: an error before [fit]. *)
Definition booster (self : XGBFeatureSelection) : result (list (string * Z)) :=
  match _Booster self with
  | Some b => Ok b
  | None => Raise XGBoostError
  end.

Definition get_fscore (b : list (string * Z)) : list (string * Z) := b.

(** [np.zeros(n)].  The array holds floats; the scores written to it are
    split counts, integers that a float holds exactly, so its entries are
    kept as integers. *)
Definition np_zeros (n : nat) : list Z := replicate n 0.

(** [a[i] = v] on a one-dimensional array: a negative [i] counts from the
    end, and an index outside [-len(a) .. len(a) - 1] is an [IndexError]. *)
Definition setitem (a : list Z) (i v : Z) : result (list Z) :=
  let n := Z.of_nat (length a) in
  if decide (0 ≤ i < n) then Ok (<[Z.to_nat i := v]> a)
  else if decide (- n ≤ i < 0) then Ok (<[Z.to_nat (i + n) := v]> a)
  else Raise IndexError.

(** [int(k[1:])]: the feature index a key of the score dictionary stands
    for. *)
Definition feature_index (k : string) : result Z := Str.int (Str.tail k).

(** The body of the loop, [importances[int(k[1:])] = v]. *)
Definition write (importances : list Z) (kv : string * Z)
  : result (list Z) :=
  i ← feature_index kv.1; setitem importances i kv.2.

Definition feature_importances_ (self : XGBFeatureSelection)
  : result (list Z) :=
  booster ← booster self;
  let fscores := get_fscore booster in
  let importances := np_zeros (n_features self) in
  for_each write fscores importances.

(** A classifier fitted with the given scores. *)
Definition fitted (n : nat) (fscores : list (string * Z))
  : XGBFeatureSelection :=
  {| _n_features := n; _Booster := Some fscores |}.

(** The key stands for the feature of index [i], a natural number as the
    booster's own feature names [f0], [f1], ... give them. *)
Definition names_feature (k : string) (i : nat) : Prop :=
  feature_index k = Ok (Z.of_nat i).

(** ** [_sanitize_holiday_name] *)

Definition kept (c : ascii) : bool :=
  Str.isalpha c || Str.isdigit c || Ascii.eqb c " ".

Definition _sanitize_holiday_name (name : string) : string :=
  let new_name := List.filter kept (list_ascii_of_string name) in
  let new_name := Str.replace (Str.lower (Str.join new_name)) " " "_" in
  new_name.

(** What one kept character becomes. *)
Definition sanitized_char (c : ascii) : ascii :=
  if Ascii.eqb c " " then "_"%char else Str.lower_char c.

(** The alphabet of sanitized names. *)
Definition name_char (c : ascii) : bool :=
  Str.islower c || Str.isdigit c || Ascii.eqb c "_".

(** ** [datetime.date] *)

Module Date.

Record date := { year : Z; month : Z; day : Z }.

Global Instance date_eq_dec : EqDecision date.
Proof. solve_decision. Defined.

Definition _is_leap (y : Z) : bool :=
  (y mod 4 =? 0) && (negb (y mod 100 =? 0) || (y mod 400 =? 0)).

Definition _days_before_year (y : Z) : Z :=
  let y := y - 1 in
  y * 365 + y / 4 - y / 100 + y / 400.

Definition _days_in_month (y m : Z) : Z :=
  if (m =? 2) && _is_leap y then 29
  else nth (Z.to_nat m) [-1; 31; 28; 31; 30; 31; 30; 31; 31; 30; 31; 30; 31] 0.

Definition _days_before_month (y m : Z) : Z :=
  nth (Z.to_nat m) [0; 0; 31; 59; 90; 120; 151; 181; 212; 243; 273; 304; 334] 0
  + (if (2 <? m) && _is_leap y then 1 else 0).

Definition _ymd2ord (y m d : Z) : Z :=
  _days_before_year y + _days_before_month y m + d.

Definition valid (a : date) : Prop :=
  1 ≤ year a ≤ 9999 ∧ 1 ≤ month a ≤ 12
  ∧ 1 ≤ day a ≤ _days_in_month (year a) (month a).

Global Instance valid_dec a : Decision (valid a).
Proof. unfold valid. apply _. Defined.

(** [date(y, m, d)] *)
Definition make (y m d : Z) : result date :=
  let a := {| year := y; month := m; day := d |} in
  if decide (valid a) then Ok a else Raise ValueError.

Definition toordinal (a : date) : Z := _ymd2ord (year a) (month a) (day a).

(** [(a - b).days] *)
Definition days_between (a b : date) : Z := toordinal a - toordinal b.

(** [a < b]: dates compare as the triples (year, month, day). *)
Definition before (a b : date) : Prop :=
  year a < year b
  ∨ (year a = year b
     ∧ (month a < month b ∨ (month a = month b ∧ day a < day b))).

(** The day after [a], for the dates that have one. *)
Definition tomorrow (a : date) : date :=
  if day a <? _days_in_month (year a) (month a)
  then {| year := year a; month := month a; day := day a + 1 |}
  else if month a <? 12
       then {| year := year a; month := month a + 1; day := 1 |}
       else {| year := year a + 1; month := 1; day := 1 |}.

End Date.

Import Date.

(** ** [process_holidays] *)

(** [df[label]] on one row of the users table. *)
Definition field (df : gmap string Z) (label : string) : result Z :=
  match df !! label with
  | Some v => Ok v
  | None => Raise KeyError
  end.

Definition days_to (name : string) : string :=
  "days_to_" +:+ _sanitize_holiday_name name.

(** The row carries the three fields of a valid date. *)
Definition dated (df : gmap string Z) (a : date) : Prop :=
  df !! "year_account_created" = Some (year a)
  ∧ df !! "month_account_created" = Some (month a)
  ∧ df !! "day_account_created" = Some (day a)
  ∧ valid a.

Section Holidays.

(** [holidays.US(years=y)], as the (date, name) items its [iteritems]
    yields, in that order. *)
Variable US : Z → list (date * string).

(** The body of the loop over the holidays. *)
Definition add_holiday (user_date : date) (df : gmap string Z)
    (item : date * string) : gmap string Z :=
  let days := days_between item.1 user_date in
  let name := _sanitize_holiday_name item.2 in
  <["days_to_" +:+ name := days]> df.

Definition process_holidays (df : gmap string Z) : result (gmap string Z) :=
  user_date ← (y ← field df "year_account_created";
               m ← field df "month_account_created";
               d ← field df "day_account_created";
               Date.make y m d);
  y ← field df "year_account_created";
  let holidays_dates := US y in
  Ok (foldl (add_holiday user_date) df holidays_dates).

End Holidays.

(** The holidays of 2015 in the United States, as the calendar names
    them. *)
Definition us_2015 : list (date * string) :=
  [ ({| year := 2015; month := 1; day := 1 |}, "New Year's Day");
    ({| year := 2015; month := 1; day := 19 |}, "Martin Luther King, Jr. Day");
    ({| year := 2015; month := 2; day := 16 |}, "Washington's Birthday");
    ({| year := 2015; month := 5; day := 25 |}, "Memorial Day");
    ({| year := 2015; month := 7; day := 3 |}, "Independence Day (Observed)");
    ({| year := 2015; month := 7; day := 4 |}, "Independence Day");
    ({| year := 2015; month := 9; day := 7 |}, "Labor Day");
    ({| year := 2015; month := 10; day := 12 |}, "Columbus Day");
    ({| year := 2015; month := 11; day := 11 |}, "Veterans Day");
    ({| year := 2015; month := 11; day := 26 |}, "Thanksgiving");
    ({| year := 2015; month := 12; day := 25 |}, "Christmas Day") ].

Definition calendar_2015 (y : Z) : list (date * string) :=
  if decide (y = 2015) then us_2015 else [].

(** A row of the users table with the date the account was created. *)
Definition signup (y m d : Z) : gmap string Z :=
  <["year_account_created" := y]>
    (<["month_account_created" := m]>
       (<["day_account_created" := d]> ∅)).

(** The same row once it already has a column for New Year's Day. *)
Definition signup_with_column : gmap string Z :=
  <["days_to_new_years_day" := 7]> (signup 2015 1 1).

Definition new_year_2015 : date := {| year := 2015; month := 1; day := 1 |}.

(** ** [one_hot_encoding] on a store of frames

    Frames are objects: [data] names one, [drop(..., inplace=True)] changes
    the object named, and [concat] makes a new one that [data] then names.
    The store is the list of the objects made so far, a reference is a
    position in it, and the run returns the store it leaves together with
    the reference it returns or the exception it raises. *)

Fixpoint one_hot_encoding_at (store : list DataFrame) (data : nat)
    (categorical_features : list string) : list DataFrame * result nat :=
  match categorical_features with
  | [] => (store, Ok data)
  | feature :: rest =>
      match store !! data with
      | None => (store, Raise Unmodelled)
      | Some d =>
          match getitem d feature with
          | Raise e => (store, Raise e)
          | Ok s =>
              let data_dummy := get_dummies s feature in
              match drop_label d feature with
              | Raise e => (store, Raise e)
              | Ok d' =>
                  let store := <[data := d']> store in
                  match concat d' data_dummy with
                  | Raise e => (store, Raise e)
                  | Ok d'' =>
                      let data := length store in
                      let store := store ++ [d''] in
                      one_hot_encoding_at store data rest
                  end
              end
          end
      end
  end.

(** What the first round does to the frame the caller passed. *)
Definition after_call (d : DataFrame) (features : list string) : DataFrame :=
  match features with
  | [] => d
  | feature :: _ =>
      match getitem d feature with
      | Ok _ => frame (index d) (filter (λ c, c.1 ≠ feature) (columns d))
      | Raise _ => d
      end
  end.

(** ** The constructor and the setter of [XGBFeatureSelection] *)

(** [XGBFeatureSelection(n_features, ...)]: the classifier's own
    constructor leaves the booster unset. *)
Definition __init__ (n_features : nat) : XGBFeatureSelection :=
  {| _n_features := n_features; _Booster := None |}.

(** [self.n_features = value] *)
Definition n_features_setter (self : XGBFeatureSelection) (value : nat)
  : XGBFeatureSelection :=
  {| _n_features := value; _Booster := _Booster self |}.

(** The position of an array of length [n] that the index [i] addresses. *)
Definition position (n : nat) (i : Z) : option nat :=
  if decide (0 ≤ i < Z.of_nat n) then Some (Z.to_nat i)
  else if decide (- Z.of_nat n ≤ i < 0) then Some (Z.to_nat (i + Z.of_nat n))
  else None.

(** The item can be written to an array of length [n]: its key names an
    index, and the index addresses a position. *)
Definition writable (n : nat) (kv : string * Z) : Prop :=
  ∃ i, feature_index kv.1 = Ok i ∧ - Z.of_nat n ≤ i < Z.of_nat n.

(** The score the last item addressing position [j] carries, if there is
    one. *)
Fixpoint last_score (n : nat) (fscores : list (string * Z)) (j : nat)
  : option Z :=
  match fscores with
  | [] => None
  | kv :: rest =>
      match last_score n rest j with
      | Some v => Some v
      | None =>
          match feature_index kv.1 with
          | Ok i => if decide (position n i = Some j) then Some kv.2 else None
          | Raise _ => None
          end
      end
  end.

(** ** Holiday columns *)

(** The distance the last holiday written to column [label] is at, if a
    holiday is written there. *)
Fixpoint last_distance (user_date : date) (hs : list (date * string))
    (label : string) : option Z :=
  match hs with
  | [] => None
  | item :: rest =>
      match last_distance user_date rest label with
      | Some v => Some v
      | None =>
          if decide (days_to item.2 = label)
          then Some (days_between item.1 user_date)
          else None
      end
  end.

(** ** Counting characters *)

(** How often the character [c] occurs in [s]. *)
Definition occurrences (c : ascii) (s : string) : nat :=
  length (List.filter (Ascii.eqb c) (list_ascii_of_string s)).

(** ** Indicator columns *)

(** An integer column whose entries are all 0 or 1. *)
Definition binary (c : column) : Prop :=
  ∃ zs, c = IntCol zs ∧ Forall (λ z, z = 0 ∨ z = 1) zs.

(** * Part II: properties *)

(** Closed decidable facts are settled by evaluation. *)
Ltac by_decide := apply (bool_decide_unpack _); vm_compute; exact I.

(** The index a given key names, read off by evaluation. *)
Ltac index_of H :=
  match type of H with
  | names_feature ?k ?i =>
      let r := eval vm_compute in (feature_index k) in
      change (r = Ok (Z.of_nat i)) in H; injection H as H
  | feature_index ?k = Ok ?i =>
      let r := eval vm_compute in (feature_index k) in
      change (r = Ok i) in H; injection H as H
  end.

(** A key names the feature [i], which may have to be below a bound. *)
Ltac names i := exists i; first [reflexivity | split; [reflexivity|lia]].

(** ** Sanitized names *)

Lemma chars_lower s :
  list_ascii_of_string (Str.lower s) = Str.lower_char <$> list_ascii_of_string s.
Proof. induction s as [|c s IH]; simpl; [done|by rewrite IH]. Qed.

Lemma chars_replace s old new :
  list_ascii_of_string (Str.replace s old new)
  = (λ c, if Ascii.eqb c old then new else c) <$> list_ascii_of_string s.
Proof. induction s as [|c s IH]; simpl; [done|by rewrite IH]. Qed.

Lemma chars_join l : list_ascii_of_string (Str.join l) = l.
Proof. apply list_ascii_of_string_of_list_ascii. Qed.

Lemma lower_char_not_space c :
  Ascii.eqb (Str.lower_char c) " " = Ascii.eqb c " ".
Proof. by destruct c as [[] [] [] [] [] [] [] []]. Qed.

Lemma sanitized_char_ok c : kept c = true → name_char (sanitized_char c) = true.
Proof. by destruct c as [[] [] [] [] [] [] [] []]. Qed.

Lemma sanitize_chars name :
  list_ascii_of_string (_sanitize_holiday_name name)
  = sanitized_char <$> List.filter kept (list_ascii_of_string name).
Proof.
  unfold _sanitize_holiday_name.
  rewrite chars_replace, chars_lower, chars_join.
  rewrite <- list_fmap_compose. apply list_fmap_ext. intros _ c _. simpl.
  unfold sanitized_char. by rewrite lower_char_not_space.
Qed.

(** C7. A sanitized holiday name is made of lower-case letters, digits and
    underscores only: the characters of the name that are neither letters,
    digits nor spaces are dropped, and each character that stays becomes
    its lower-case form, or an underscore if it is a space. *)
Theorem sanitize_holiday_name_alphabet (name : string) :
  Forall (λ c, name_char c = true)
         (list_ascii_of_string (_sanitize_holiday_name name))
  ∧ list_ascii_of_string (_sanitize_holiday_name name)
    = sanitized_char <$> List.filter kept (list_ascii_of_string name).
Proof.
  split; [|apply sanitize_chars].
  rewrite sanitize_chars. apply Forall_fmap, Forall_forall.
  intros c Hc. apply list_elem_of_In, filter_In in Hc as [_ Hc].
  by apply sanitized_char_ok.
Qed.

Example sanitize_mlk :
  _sanitize_holiday_name "Martin Luther King, Jr. Day"
  = "martin_luther_king_jr_day".
Proof. reflexivity. Qed.

(** ** One-hot encoding: one round, and what every run preserves *)

Lemma getitem_Ok data f x :
  getitem data f = Ok x →
  (∃ c, filter (λ c, c.1 = f) (columns data) = [c]
        ∧ x = OneColumn {| s_index := index data; s_values := c.2 |})
  ∨ (∃ c c' l,
       filter (λ c, c.1 = f) (columns data) = c :: c' :: l
       ∧ x = SeveralColumns (frame (index data) (c :: c' :: l))).
Proof.
  unfold getitem.
  destruct (filter _ (columns data)) as [|c [|c' l]]; intros [= <-];
    [left|right]; eauto.
Qed.

Lemma getitem_Raise data f e : getitem data f = Raise e → e = KeyError.
Proof.
  unfold getitem.
  by destruct (filter _ (columns data)) as [|c [|c' l]]; intros [= <-].
Qed.

Lemma selected_elem (cols : list (string * column)) feature c l :
  filter (λ c, c.1 = feature) cols = c :: l → (feature, c.2) ∈ cols.
Proof.
  intros Hsel.
  assert (c ∈ filter (λ c, c.1 = feature) cols) as Hc
    by (rewrite Hsel; by left).
  apply list_elem_of_filter in Hc as [<- Hc]. by destruct c.
Qed.

Lemma getitem_present data f x : getitem data f = Ok x → f ∈ labels data.
Proof.
  intros [(c & Hsel & _)|(c & c' & l & Hsel & _)]%getitem_Ok;
    apply selected_elem in Hsel; unfold labels;
    by apply (list_elem_of_fmap_2 fst _ (f, c.2)).
Qed.

Lemma get_dummies_index data f x prefix :
  getitem data f = Ok x → index (get_dummies x prefix) = index data.
Proof.
  by intros [(c & _ & ->)|(c & c' & l & _ & ->)]%getitem_Ok.
Qed.

(** One round of the loop: [KeyError] when no column carries the name,
    the next frame otherwise. *)
Lemma one_hot_encoding_cons data feature rest :
  one_hot_encoding data (feature :: rest)
  = match getitem data feature with
    | Ok x => one_hot_encoding (next_frame data feature x) rest
    | Raise e => Raise e
    end.
Proof.
  cbn [one_hot_encoding].
  destruct (getitem data feature) as [x|e] eqn:Hx; [|done].
  cbn. unfold drop_label.
  rewrite decide_True by by eapply getitem_present.
  cbn. unfold concat. cbn [index].
  by rewrite decide_True by by erewrite get_dummies_index.
Qed.

Lemma getitem_single data f c :
  filter (λ c, c.1 = f) (columns data) = [c] →
  getitem data f = Ok (OneColumn {| s_index := index data; s_values := c.2 |}).
Proof. intros Hsel. unfold getitem. by rewrite Hsel. Qed.

Lemma getitem_absent data f :
  filter (λ c, c.1 = f) (columns data) = [] → getitem data f = Raise KeyError.
Proof. intros Hsel. unfold getitem. by rewrite Hsel. Qed.

Lemma get_dummies_1d_height s prefix :
  Forall (λ c, height c.2 = height (s_values s))
         (columns (_get_dummies_1d s prefix)).
Proof.
  destruct s as [idx [values|values]]; cbn;
    apply Forall_fmap, Forall_forall; intros v _; cbn;
    apply length_fmap.
Qed.

(** The columns [get_dummies] gives for a selection of a rectangular frame
    have one entry per row. *)
Lemma get_dummies_height data f x prefix :
  getitem data f = Ok x → well_formed data →
  Forall (λ c, height c.2 = nrows data) (columns (get_dummies x prefix)).
Proof.
  unfold well_formed. rewrite !Forall_forall. intros Hx Hwf.
  assert (∀ c, c ∈ filter (λ c, c.1 = f) (columns data) →
               height c.2 = nrows data) as Hsel.
  { intros c [_ Hc]%list_elem_of_filter. by apply Hwf. }
  apply getitem_Ok in Hx as [(c & Hc & ->)|(c & c' & l & Hc & ->)];
    rewrite Hc in Hsel; cbn [get_dummies].
  - intros y Hy.
    pose proof (get_dummies_1d_height
                  {| s_index := index data; s_values := c.2 |} prefix) as Hh.
    rewrite Forall_forall in Hh. rewrite (Hh y Hy). cbn. apply Hsel. by left.
  - unfold get_dummies_frame. cbn [columns index].
    intros y [Hy|Hy]%elem_of_app.
    + apply list_elem_of_filter in Hy as [_ Hy]. by apply Hsel.
    + apply list_elem_of_bind in Hy as (z & Hy & Hz).
      apply list_elem_of_filter in Hz as [_ Hz].
      pose proof (get_dummies_1d_height
                    {| s_index := index data; s_values := z.2 |} prefix) as Hh.
      rewrite Forall_forall in Hh. rewrite (Hh y Hy). cbn. by apply Hsel.
Qed.

Lemma next_frame_well_formed data f x :
  getitem data f = Ok x → well_formed data →
  well_formed (next_frame data f x).
Proof.
  intros Hx Hwf. unfold well_formed, next_frame, nrows. cbn [columns index].
  apply Forall_app. split.
  - apply Forall_forall. intros y [_ Hy]%list_elem_of_filter.
    unfold well_formed in Hwf. rewrite Forall_forall in Hwf. by apply Hwf.
  - by eapply get_dummies_height.
Qed.

(** Whatever the list of names, a run that returns keeps the index, keeps
    the columns it was not asked to encode in front and in their order, and
    keeps the frame rectangular. *)
Lemma one_hot_encoding_frame features :
  ∀ data out,
    one_hot_encoding data features = Ok out →
    index out = index data
    ∧ (∃ made, columns out
               = filter (λ c, c.1 ∉ features) (columns data) ++ made)
    ∧ (well_formed data → well_formed out).
Proof.
  induction features as [|f rest IH]; intros data out Hrun.
  - injection Hrun as <-. split; [done|]. split; [|done].
    exists []. rewrite app_nil_r. symmetry.
    induction (columns data) as [|c l IHl]; [done|].
    rewrite filter_cons_True by apply not_elem_of_nil. by f_equal.
  - rewrite one_hot_encoding_cons in Hrun.
    destruct (getitem data f) as [x|e] eqn:Hx; [|done].
    apply IH in Hrun as (Hidx & [made Hcols] & Hwf).
    split; [done|]. split.
    + eexists. rewrite Hcols. unfold next_frame. cbn [columns].
      rewrite filter_app, <- (assoc_L (++)).
      f_equal. rewrite list_filter_filter. apply list_filter_iff.
      intros y. rewrite not_elem_of_cons. tauto.
    + intros Hdata. by apply Hwf, next_frame_well_formed.
Qed.

(** The only exception a run raises is [KeyError]. *)
Lemma one_hot_encoding_Raise features :
  ∀ data e, one_hot_encoding data features = Raise e → e = KeyError.
Proof.
  induction features as [|f rest IH]; intros data e Hrun; [done|].
  rewrite one_hot_encoding_cons in Hrun.
  destruct (getitem data f) as [x|e'] eqn:Hx; [by eapply IH|].
  injection Hrun as <-. by eapply getitem_Raise.
Qed.

(** ** Selecting and dropping columns by label *)

Section Labels.

Context {B : Type}.
Implicit Types (l : list (string * B)) (f g : string).

Lemma select_absent l f : f ∉ l.*1 → filter (λ x, x.1 = f) l = [].
Proof.
  intros Hf. induction l as [|x l IH]; [done|].
  rewrite fmap_cons, not_elem_of_cons in Hf. destruct Hf as [Hx Hl].
  rewrite filter_cons_False by done. auto.
Qed.

Lemma select_empty l f : filter (λ x, x.1 = f) l = [] → f ∉ l.*1.
Proof.
  intros Hsel (x & -> & Hx)%list_elem_of_fmap.
  assert (x ∈ filter (λ y, y.1 = x.1) l) as Hin
    by by apply list_elem_of_filter.
  rewrite Hsel in Hin. by apply elem_of_nil in Hin.
Qed.

Lemma drop_absent l f : f ∉ l.*1 → filter (λ x, x.1 ≠ f) l = l.
Proof.
  intros Hf. induction l as [|x l IH]; [done|].
  rewrite fmap_cons, not_elem_of_cons in Hf. destruct Hf as [Hx Hl].
  rewrite filter_cons_True by done. f_equal. auto.
Qed.

Lemma select_unique l f : NoDup l.*1 → f ∈ l.*1 →
  ∃ b, filter (λ x, x.1 = f) l = [(f, b)].
Proof.
  induction l as [|[g b] l IH]; intros Hnd Hf; [by apply elem_of_nil in Hf|].
  rewrite fmap_cons in Hnd, Hf. apply NoDup_cons in Hnd as [Hg Hnd].
  destruct (decide (g = f)) as [->|Hne].
  - exists b. rewrite filter_cons_True by done. f_equal. by apply select_absent.
  - rewrite filter_cons_False by done. apply IH; [done|].
    apply elem_of_cons in Hf as [Hf|Hf]; [by cbn in Hf|done].
Qed.

Lemma select_after_drop l f g :
  g ≠ f →
  filter (λ x, x.1 = g) (filter (λ x, x.1 ≠ f) l) = filter (λ x, x.1 = g) l.
Proof.
  intros Hne. rewrite list_filter_filter. apply list_filter_iff.
  intros x. split; [tauto|]. intros ->. done.
Qed.

Lemma labels_after_drop l f g :
  g ∈ (filter (λ x, x.1 ≠ f) l).*1 ↔ g ∈ l.*1 ∧ g ≠ f.
Proof.
  rewrite !list_elem_of_fmap. split.
  - intros (x & -> & [Hx Hl]%list_elem_of_filter). eauto.
  - intros [(x & -> & Hl) Hne]. exists x. split; [done|].
    by apply list_elem_of_filter.
Qed.

Lemma NoDup_labels_after_drop l f :
  NoDup l.*1 → NoDup (filter (λ x, x.1 ≠ f) l).*1.
Proof.
  induction l as [|x l IH]; [done|]. rewrite fmap_cons, NoDup_cons.
  intros [Hx Hnd]. destruct (decide (x.1 ≠ f)).
  - rewrite filter_cons_True by done. rewrite fmap_cons, NoDup_cons.
    split; [|auto]. rewrite labels_after_drop. tauto.
  - rewrite filter_cons_False by done. auto.
Qed.

Lemma keep_all l : filter (λ x, x.1 ∉ @nil string) l = l.
Proof.
  induction l as [|x l IH]; [done|].
  rewrite filter_cons_True by apply not_elem_of_nil. by f_equal.
Qed.

End Labels.

(** ** One-hot encoding: the run on a frame with unique labels *)

Lemma block_selected idx cols f c :
  filter (λ x, x.1 = f) cols = [c] →
  block (frame idx cols) f
  = columns (_get_dummies_1d {| s_index := idx; s_values := c.2 |} f).
Proof. intros Hsel. unfold block, getitem. cbn. by rewrite Hsel. Qed.

Lemma block_absent idx cols f : f ∉ cols.*1 → block (frame idx cols) f = [].
Proof.
  intros Hf. unfold block, getitem. cbn. by rewrite select_absent.
Qed.

Lemma block_after_drop idx cols f g :
  g ≠ f →
  block (frame idx (filter (λ x, x.1 ≠ f) cols)) g = block (frame idx cols) g.
Proof.
  intros Hne. unfold block, getitem. cbn.
  by rewrite select_after_drop.
Qed.

Lemma block_after_drop_same idx cols f :
  block (frame idx (filter (λ x, x.1 ≠ f) cols)) f = [].
Proof. apply block_absent. rewrite labels_after_drop. tauto. Qed.

Lemma block_after_drop_labels idx cols f g x :
  x ∈ (block (frame idx (filter (λ x, x.1 ≠ f) cols)) g).*1 →
  x ∈ (block (frame idx cols) g).*1.
Proof.
  destruct (decide (g = f)) as [->|Hne].
  - rewrite block_after_drop_same. by intros ?%elem_of_nil.
  - by rewrite block_after_drop.
Qed.

Lemma blocks_after_drop idx cols f (rest : list string) :
  f ∉ rest →
  rest ≫= block (frame idx (filter (λ x, x.1 ≠ f) cols))
  = rest ≫= block (frame idx cols).
Proof.
  induction rest as [|g rest IH]; [done|].
  rewrite not_elem_of_cons. intros [Hne Hrest].
  rewrite !bind_cons, IH by done. f_equal. by apply block_after_drop.
Qed.

Lemma plain_in_turn_after_drop idx cols f (rest : list string) :
  plain_in_turn (frame idx cols) rest →
  plain_in_turn (frame idx (filter (λ x, x.1 ≠ f) cols)) rest.
Proof.
  induction rest as [|g rest IH]; [done|]. cbn [plain_in_turn].
  intros [Hg Hrest]. split; [|auto].
  eapply Forall_impl; [exact Hg|]. cbn. intros h Hh Hin.
  by apply Hh, (block_after_drop_labels idx cols f).
Qed.

(** If no name is the label of an indicator column of any name of the
    list, none is the label of one made before its turn. *)
Lemma plain_plain_in_turn data (features : list string) :
  plain data features → plain_in_turn data features.
Proof.
  unfold plain. rewrite Forall_forall.
  induction features as [|f rest IH]; [done|]. intros Hplain.
  cbn [plain_in_turn]. split.
  - apply Forall_forall. intros g Hg Hin. apply (Hplain g); [by right|].
    rewrite bind_cons, fmap_app. apply elem_of_app. by left.
  - apply IH. intros g Hg Hin. apply (Hplain g); [by right|].
    rewrite bind_cons, fmap_app. apply elem_of_app. by right.
Qed.

Lemma encodable_cons f rest cols :
  f ∈ cols.*1 →
  encodable (f :: rest) cols ↔ encodable rest (filter (λ x, x.1 ≠ f) cols).
Proof.
  intros Hf. unfold encodable. rewrite NoDup_cons, !Forall_forall. split.
  - intros [[Hfr Hnd] Hin]. split; [done|]. intros g Hg.
    rewrite labels_after_drop. split; [apply Hin; by right|].
    intros ->. done.
  - intros [Hnd Hin]. split; [split; [|done]|].
    + intros Hfr. apply Hin, labels_after_drop in Hfr. tauto.
    + intros g [->|Hg]%elem_of_cons; [done|].
      by apply Hin, labels_after_drop in Hg as [? _].
Qed.

(** A frame made of columns [A] with unique labels followed by columns
    [G], where no name to encode is a label of [G] or of an indicator
    column the run makes before the name's turn: every name then selects
    at most one column, the run raises [KeyError] unless the names are
    encodable, and then returns the columns of [A] it was not asked to
    encode, [G], and the indicator columns of each name in turn. *)
Lemma one_hot_encoding_run features :
  ∀ idx A G,
    NoDup A.*1 →
    (∀ f, f ∈ features → f ∉ G.*1) →
    plain_in_turn (frame idx A) features →
    one_hot_encoding (frame idx (A ++ G)) features
    = if decide (encodable features A)
      then Ok (frame idx (filter (λ c, c.1 ∉ features) A
                          ++ G ++ (features ≫= block (frame idx A))))
      else Raise KeyError.
Proof.
  induction features as [|f rest IH]; intros idx A G HA HG Hmade.
  - rewrite decide_True by (split; constructor).
    cbn. by rewrite keep_all, app_nil_r.
  - destruct Hmade as [Hf_made Hmade]. rewrite Forall_forall in Hf_made.
    rewrite one_hot_encoding_cons.
    assert (filter (λ x, x.1 = f) (A ++ G) = filter (λ x, x.1 = f) A)
      as Hsel_app.
    { rewrite filter_app, (select_absent G) by (apply HG; by left).
      apply app_nil_r. }
    destruct (decide (f ∈ A.*1)) as [Hf|Hf].
    + destruct (select_unique A f HA Hf) as [c Hsel].
      rewrite (getitem_single _ f (f, c)) by (cbn [columns]; congruence).
      unfold next_frame. cbn [columns index get_dummies fst snd].
      rewrite filter_app, (drop_absent G) by (apply HG; by left).
      rewrite <- (assoc_L (++)).
      pose proof (block_selected idx A f (f, c) Hsel) as Hblock.
      cbn [snd] in Hblock. rewrite <- Hblock.
      rewrite IH; first last.
      * by apply plain_in_turn_after_drop.
      * intros g Hg. rewrite fmap_app, not_elem_of_app. split.
        -- apply HG. by right.
        -- by apply Hf_made.
      * by apply NoDup_labels_after_drop.
      * destruct (decide (encodable rest _)) as [Hrest|Hrest].
        -- rewrite decide_True by by apply encodable_cons.
           do 2 f_equal.
           rewrite bind_cons, <- !(assoc_L (++)).
           rewrite blocks_after_drop
             by (apply encodable_cons in Hrest as [[? _]%NoDup_cons _]; done).
           f_equal. rewrite list_filter_filter. apply list_filter_iff.
           intros x. rewrite not_elem_of_cons. tauto.
        -- rewrite decide_False; [done|]. by rewrite encodable_cons.
    + rewrite getitem_absent
        by (cbn [columns]; rewrite Hsel_app; by apply select_absent).
      rewrite decide_False; [done|].
      intros [_ Hin%Forall_cons_1]. tauto.
Qed.

(** ** The indicator columns of one name *)

Lemma elem_of_levels_obj values v : v ∈ levels_obj values ↔ Some v ∈ values.
Proof.
  unfold levels_obj. rewrite merge_sort_Permutation, elem_of_remove_dups.
  rewrite list_elem_of_omap. split.
  - intros (x & Hx & Heq). cbn in Heq. by subst.
  - intros Hv. by exists (Some v).
Qed.

Lemma NoDup_levels_obj values : NoDup (levels_obj values).
Proof.
  unfold levels_obj. rewrite merge_sort_Permutation. apply NoDup_remove_dups.
Qed.

Lemma elem_of_levels_int values z : z ∈ levels_int values ↔ z ∈ values.
Proof.
  unfold levels_int. by rewrite merge_sort_Permutation, elem_of_remove_dups.
Qed.

Lemma NoDup_levels_int values : NoDup (levels_int values).
Proof.
  unfold levels_int. rewrite merge_sort_Permutation. apply NoDup_remove_dups.
Qed.

Global Instance dummy_name_inj prefix : Inj (=) (=) (dummy_name prefix).
Proof.
  intros v w Heq. unfold dummy_name in Heq.
  by do 2 apply (inj (String.app _)) in Heq.
Qed.

Lemma cell_indicator {A} `{EqDecision A} (level : A) values i :
  cell (indicator level values) i = Some 1 ↔ values !! i = Some level.
Proof.
  unfold indicator. cbn. rewrite list_lookup_fmap.
  destruct (values !! i) as [x|]; cbn; [|done].
  destruct (decide (x = level)) as [->|Hne]; [done|].
  split; [done|]. by intros [= ->].
Qed.

(** In a row, the indicator column of the row's own level is set and no
    other: over distinct levels, exactly one if the level is among them. *)
Lemma set_in_row_indicators {L A} `{EqDecision A}
    (name : L → string) (inj : L → A) `{!Inj (=) (=) inj}
    (lv : list L) (values : list A) i :
  NoDup lv →
  set_in_row ((λ v, (name v, indicator (inj v) values)) <$> lv) i
  = match values !! i with
    | Some x => if decide (x ∈ inj <$> lv) then 1%nat else 0%nat
    | None => 0%nat
    end.
Proof.
  unfold set_in_row. induction lv as [|v lv IH]; intros Hnd.
  - cbn. destruct (values !! i); [|done].
    by rewrite decide_False by apply not_elem_of_nil.
  - apply NoDup_cons in Hnd as [Hv Hnd]. rewrite fmap_cons.
    destruct (decide (values !! i = Some (inj v))) as [Hi|Hi].
    + rewrite filter_cons_True by (cbn [snd]; by apply cell_indicator).
      cbn [length]. rewrite IH, Hi by done.
      rewrite decide_False by by rewrite (list_elem_of_fmap_inj inj).
      rewrite decide_True; [done|]. rewrite fmap_cons. by left.
    + rewrite filter_cons_False by (cbn [snd]; by rewrite cell_indicator).
      rewrite IH by done. destruct (values !! i) as [x|]; [|done].
      apply decide_ext. rewrite fmap_cons, elem_of_cons.
      split; [tauto|]. intros [->|?]; [done|done].
Qed.

Lemma block_labels data f l :
  l ∈ (block data f).*1
  ↔ ∃ v i, category_at data f i = Some v ∧ l = dummy_name f v.
Proof.
  unfold block, category_at.
  destruct (getitem data f) as [[[idx [values|values]]|d]|e]; cbn.
  - rewrite <- list_fmap_compose, list_elem_of_fmap. split.
    + intros (v & -> & Hv%elem_of_levels_obj).
      apply list_elem_of_lookup in Hv as [i Hi]. exists v, i. by rewrite Hi.
    + intros (v & i & Hi & ->). exists v. split; [done|].
      apply elem_of_levels_obj, list_elem_of_lookup. exists i.
      destruct (values !! i) as [[w|]|]; by simplify_eq/=.
  - rewrite <- list_fmap_compose, list_elem_of_fmap. split.
    + intros (z & -> & Hz). apply (proj1 (elem_of_levels_int _ _)) in Hz.
      apply list_elem_of_lookup in Hz as [i Hi]. exists (pretty z), i.
      by rewrite list_lookup_fmap, Hi.
    + intros (v & i & Hi & ->). rewrite list_lookup_fmap in Hi.
      destruct (values !! i) as [z|] eqn:Hz; simplify_eq/=.
      exists z. split; [done|].
      apply elem_of_levels_int, list_elem_of_lookup. by exists i.
  - rewrite elem_of_nil. split; [done|]. by intros (? & ? & ? & _).
  - rewrite elem_of_nil. split; [done|]. by intros (? & ? & ? & _).
Qed.

Lemma block_NoDup data f : NoDup (block data f).*1.
Proof.
  unfold block.
  destruct (getitem data f) as [[[idx [values|values]]|d]|e]; cbn.
  - rewrite <- list_fmap_compose. apply NoDup_fmap_2_strong.
    + intros v w _ _ Heq. cbn in Heq. by apply (inj (dummy_name f)) in Heq.
    + apply NoDup_levels_obj.
  - rewrite <- list_fmap_compose. apply NoDup_fmap_2_strong.
    + intros v w _ _ Heq. cbn in Heq.
      by apply (inj (dummy_name f)), (inj pretty) in Heq.
    + apply NoDup_levels_int.
  - constructor.
  - constructor.
Qed.

Lemma block_row data f i :
  set_in_row (block data f) i
  = if category_at data f i is Some _ then 1%nat else 0%nat.
Proof.
  unfold block, category_at.
  destruct (getitem data f) as [[[idx [values|values]]|d]|e];
    cbn [columns _get_dummies_1d s_values categories].
  - rewrite (set_in_row_indicators _ Some) by apply NoDup_levels_obj.
    destruct (values !! i) as [[v|]|] eqn:Hi; cbn; [| |done].
    + rewrite decide_True; [done|].
      apply list_elem_of_fmap_2, elem_of_levels_obj.
      apply list_elem_of_lookup. by exists i.
    + rewrite decide_False; [done|]. by intros (? & ? & _)%list_elem_of_fmap.
  - rewrite (set_in_row_indicators _ id) by apply NoDup_levels_int.
    rewrite list_lookup_fmap.
    destruct (values !! i) as [z|] eqn:Hi; cbn; [|done].
    rewrite decide_True; [done|]. rewrite list_fmap_id.
    apply elem_of_levels_int, list_elem_of_lookup. by exists i.
  - done.
  - done.
Qed.

(** ** One-hot encoding: the claims *)

Lemma labels_kept (cols : list (string * column)) (features : list string) l :
  l ∈ (filter (λ c, c.1 ∉ features) cols).*1 ↔ l ∈ cols.*1 ∧ l ∉ features.
Proof.
  rewrite !list_elem_of_fmap. split.
  - intros (x & -> & [Hx Hl]%list_elem_of_filter). eauto.
  - intros [(x & -> & Hl) Hne]. exists x. split; [done|].
    by apply list_elem_of_filter.
Qed.

Lemma labels_blocks data (features : list string) l :
  l ∈ (features ≫= block data).*1
  ↔ ∃ f v i, f ∈ features ∧ category_at data f i = Some v
             ∧ l = dummy_name f v.
Proof.
  split.
  - intros (x & -> & (f & Hx & Hf)%list_elem_of_bind)%list_elem_of_fmap.
    destruct (proj1 (block_labels data f x.1)) as (v & i & Hi & Hl).
    { by apply list_elem_of_fmap_2. }
    by exists f, v, i.
  - intros (f & v & i & Hf & Hi & ->).
    assert (dummy_name f v ∈ (block data f).*1) as Hin
      by (apply block_labels; by exists v, i).
    apply list_elem_of_fmap in Hin as (x & Hl & Hx).
    apply list_elem_of_fmap. exists x. split; [done|].
    apply list_elem_of_bind. by exists f.
Qed.

(** C1, as the code has it. Take a table with unique column names and a
    list of distinct names of its columns, none of which is the name of an
    indicator column made for a name that comes before it in the list.
    One-hot encoding returns a table: the columns it was not asked to
    encode followed by the indicator columns of each name in turn. Its
    labels are those of the columns not encoded and, for every encoded name
    and every category observed in that column, the name followed by an
    underscore and the category, one column per category; and in a row,
    exactly one indicator column of an encoded name is set when the row has
    a value in that column, and none when the value is missing. *)
Theorem one_hot_encoding_columns (data : DataFrame) (features : list string) :
  NoDup (labels data) →
  encodable features (columns data) →
  plain_in_turn data features →
  ∃ out,
    one_hot_encoding data features = Ok out
    ∧ columns out
      = filter (λ c, c.1 ∉ features) (columns data) ++ (features ≫= block data)
    ∧ (∀ l, l ∈ labels out
            ↔ (l ∈ labels data ∧ l ∉ features)
              ∨ ∃ f v i, f ∈ features ∧ category_at data f i = Some v
                         ∧ l = dummy_name f v)
    ∧ (∀ f, f ∈ features → NoDup (block data f).*1)
    ∧ (∀ f i, f ∈ features →
         set_in_row (block data f) i
         = if category_at data f i is Some _ then 1%nat else 0%nat).
Proof.
  destruct data as [idx A]. unfold labels. cbn [columns].
  intros HA Henc Hmade.
  pose proof (one_hot_encoding_run features idx A [] HA) as Hrun.
  rewrite app_nil_r, decide_True in Hrun by done. cbn [app] in Hrun.
  eexists. split; [apply Hrun; [by intros ? _ ?%elem_of_nil|done]|].
  cbn [columns]. split; [done|]. split; [|split].
  - intros l. by rewrite fmap_app, elem_of_app, labels_kept, labels_blocks.
  - intros f _. apply block_NoDup.
  - intros f i _. apply block_row.
Qed.

Lemma one_hot_encoding_columns_witness :
  ∃ out,
    one_hot_encoding users ["gender"; "age"] = Ok out
    ∧ columns out
      = filter (λ c, c.1 ∉ ["gender"; "age"]) (columns users)
        ++ (["gender"; "age"] ≫= block users)
    ∧ (∀ l, l ∈ labels out
            ↔ (l ∈ labels users ∧ l ∉ ["gender"; "age"])
              ∨ ∃ f v i, f ∈ ["gender"; "age"]
                         ∧ category_at users f i = Some v
                         ∧ l = dummy_name f v)
    ∧ (∀ f, f ∈ ["gender"; "age"] → NoDup (block users f).*1)
    ∧ (∀ f i, f ∈ ["gender"; "age"] →
         set_in_row (block users f) i
         = if category_at users f i is Some _ then 1%nat else 0%nat).
Proof.
  apply (one_hot_encoding_columns users ["gender"; "age"]); by_decide.
Defined.

(** The claim C1 as first written also fails when a name of the list is the
    name of an indicator column made earlier in the run: [g_F] then selects
    the column of the table and the indicator column together, pandas
    keeps both as they are, and the column [g_F] of the table is not
    encoded. *)
Example one_hot_encoding_shared_name :
  one_hot_encoding users_shared ["g"; "g_F"]
  = Ok (frame [0; 1]
          [ ("g_M", IntCol [0; 1]); ("g_F", IntCol [5; 6]);
            ("g_F", IntCol [1; 0]) ]).
Proof. reflexivity. Qed.

(** The claim C1 as first written fails on a missing value: the second user
    has no gender, and no indicator column of [gender] is set in that
    row. *)
Lemma one_hot_encoding_missing_value :
  one_hot_encoding users_missing ["gender"]
  = Ok (frame [0; 1] [("gender_F", IntCol [1; 0])])
  ∧ set_in_row [("gender_F", IntCol [1; 0])] 1 = 0%nat.
Proof. split; reflexivity. Qed.

(** C2. When one-hot encoding returns, the table it returns has as many
    rows as the one it was given, and every column of it has that many
    entries if those of the input had. *)
Theorem one_hot_encoding_rows (data out : DataFrame) (features : list string) :
  one_hot_encoding data features = Ok out →
  nrows out = nrows data ∧ (well_formed data → well_formed out).
Proof.
  intros (Hidx & _ & Hwf)%one_hot_encoding_frame.
  unfold nrows. by rewrite Hidx.
Qed.

Lemma one_hot_encoding_rows_witness :
  nrows (frame [0; 1]
           [ ("g_M", IntCol [0; 1]); ("g_F", IntCol [5; 6]);
             ("g_F", IntCol [1; 0]) ])
  = nrows users_shared
  ∧ (well_formed users_shared →
     well_formed (frame [0; 1]
                    [ ("g_M", IntCol [0; 1]); ("g_F", IntCol [5; 6]);
                      ("g_F", IntCol [1; 0]) ])).
Proof.
  apply (one_hot_encoding_rows users_shared _ ["g"; "g_F"]). reflexivity.
Defined.

(** C3. When one-hot encoding returns, the rows are those of the input in
    the same order (the index is unchanged), and the columns whose names
    are not in the list come first in the result, in their order and with
    their values as they were. *)
Theorem one_hot_encoding_untouched (data out : DataFrame)
    (features : list string) :
  one_hot_encoding data features = Ok out →
  index out = index data
  ∧ ∃ made, columns out
            = filter (λ c, c.1 ∉ features) (columns data) ++ made.
Proof. by intros (Hidx & Hcols & _)%one_hot_encoding_frame. Qed.

Lemma one_hot_encoding_untouched_witness :
  index (frame [0; 1]
           [ ("g_F", IntCol [5; 6]); ("g_F", IntCol [1; 0]);
             ("g_M", IntCol [0; 1]) ])
  = index users_shared
  ∧ ∃ made,
      columns (frame [0; 1]
                 [ ("g_F", IntCol [5; 6]); ("g_F", IntCol [1; 0]);
                   ("g_M", IntCol [0; 1]) ])
      = filter (λ c, c.1 ∉ ["g"]) (columns users_shared) ++ made.
Proof.
  apply (one_hot_encoding_untouched users_shared _ ["g"]). reflexivity.
Defined.

(** C4, as the code has it. On a table with unique column names, and for a
    list none of whose names is the name of an indicator column made for a
    name of the list, one-hot encoding raises [KeyError] whenever some name
    in the list is not a column of the table. *)
Theorem one_hot_encoding_absent (data : DataFrame) (features : list string)
    (f : string) :
  NoDup (labels data) →
  plain data features →
  f ∈ features → f ∉ labels data →
  one_hot_encoding data features = Raise KeyError.
Proof.
  destruct data as [idx A]. unfold labels. cbn [columns].
  intros HA Hmade%plain_plain_in_turn Hf Habsent.
  pose proof (one_hot_encoding_run features idx A [] HA) as Hrun.
  rewrite app_nil_r in Hrun. rewrite Hrun; [|by intros ? _ ?%elem_of_nil|done].
  apply decide_False. intros [_ Hin]. rewrite Forall_forall in Hin. auto.
Qed.

Lemma one_hot_encoding_absent_witness :
  one_hot_encoding users ["gender"; "country"] = Raise KeyError.
Proof.
  apply (one_hot_encoding_absent users ["gender"; "country"] "country");
    by_decide.
Defined.

(** The claim C4 as first written fails when the absent name is the name of
    an indicator column made earlier in the run: [gender_F] is no column of
    the table, and the run returns. *)
Lemma one_hot_encoding_made_name :
  "gender_F" ∈ ["gender"; "gender_F"]
  ∧ ("gender_F" ∉ labels users)
  ∧ ∃ out, one_hot_encoding users ["gender"; "gender_F"] = Ok out.
Proof.
  split; [by_decide|]. split; [by_decide|]. eexists. reflexivity.
Qed.

(** ** Feature importances *)

Lemma setitem_inside (a : list Z) (i : nat) v :
  (i < length a)%nat → setitem a (Z.of_nat i) v = Ok (<[i := v]> a).
Proof.
  intros Hi. unfold setitem. rewrite decide_True by lia.
  by rewrite Nat2Z.id.
Qed.

(** Indexing as numpy has it: the indexes from [-len(a)] to [len(a) - 1]
    are those that can be written, a negative one counting from the end. *)
Lemma setitem_returns (a : list Z) i v :
  (∃ a', setitem a i v = Ok a' ∧ length a' = length a)
  ↔ - Z.of_nat (length a) ≤ i < Z.of_nat (length a).
Proof.
  unfold setitem. split.
  - intros (a' & Hset & _). repeat case_decide; try done; lia.
  - intros Hi. repeat case_decide; try lia;
      eexists; (split; [done|apply length_insert]).
Qed.

Section Importances.

Implicit Types (fscores : list (string * Z)) (a : list Z).

Lemma write_inside a k v (i : nat) :
  names_feature k i → (i < length a)%nat → write a (k, v) = Ok (<[i := v]> a).
Proof.
  intros Hk Hi. unfold write. cbn. rewrite Hk. cbn. by apply setitem_inside.
Qed.

(** With every key naming a feature below the length of the array and no
    two keys naming the same feature, the loop returns an array of that
    length which holds each score at its feature's position and is
    unchanged elsewhere. *)
Lemma importances_loop fscores :
  ∀ a,
    Forall (λ kv, ∃ i, names_feature kv.1 i ∧ (i < length a)%nat) fscores →
    NoDup (feature_index ∘ fst <$> fscores) →
    ∃ a',
      for_each write fscores a = Ok a'
      ∧ length a' = length a
      ∧ (∀ k v i, (k, v) ∈ fscores → names_feature k i → a' !! i = Some v)
      ∧ (∀ i, (∀ k v, (k, v) ∈ fscores → ¬ names_feature k i) →
              a' !! i = a !! i).
Proof.
  induction fscores as [|[k v] fscores IH]; intros a Hkeys Hnd.
  - exists a. split; [done|]. split; [done|]. split; [|done].
    by intros k v i ?%elem_of_nil.
  - apply Forall_cons_1 in Hkeys as [(i0 & Hk & Hi0) Hkeys].
    cbn [fst] in Hk. rewrite fmap_cons in Hnd. apply NoDup_cons in Hnd as [Hfresh Hnd].
    destruct (IH (<[i0 := v]> a)) as (a' & Hrun & Hlen & Hset & Hother).
    { by rewrite length_insert. }
    { done. }
    exists a'. cbn [for_each]. rewrite (write_inside a k v i0) by done.
    split; [done|]. rewrite length_insert in Hlen. split; [done|]. split.
    + intros k' v' i [[= -> ->]|Hin]%elem_of_cons Hk'; [|by eapply Hset].
      assert (i = i0) as ->
        by (apply Nat2Z.inj; unfold names_feature in *; congruence).
      rewrite Hother; [by apply list_lookup_insert_eq|].
      intros k'' v'' Hin Hk''. apply Hfresh.
      apply list_elem_of_fmap. exists (k'', v''). split; [|done].
      cbn. unfold names_feature in *. congruence.
    + intros i Hi. rewrite Hother.
      * apply list_lookup_insert_ne. intros ->. apply (Hi k v); [by left|done].
      * intros k' v' Hin. apply (Hi k' v'). by right.
Qed.

End Importances.

Lemma position_bound n i p : position n i = Some p → (p < n)%nat.
Proof. unfold position. repeat case_decide; intros [= <-]; lia. Qed.

Lemma position_Some n i :
  is_Some (position n i) ↔ - Z.of_nat n ≤ i < Z.of_nat n.
Proof.
  unfold position. repeat case_decide; split; intros Hp;
    try lia; try done; by destruct Hp.
Qed.

Lemma setitem_position (a : list Z) i v :
  setitem a i v
  = match position (length a) i with
    | Some p => Ok (<[p := v]> a)
    | None => Raise IndexError
    end.
Proof. unfold setitem, position. by repeat case_decide. Qed.

Lemma int_raises s e : Str.int s = Raise e → e = ValueError.
Proof. unfold Str.int. by repeat case_match; intros [= <-]. Qed.

Lemma for_each_app {A S} (body : S → A → result S) (l1 l2 : list A) (s : S) :
  for_each body (l1 ++ l2) s = for_each body l1 s ≫= for_each body l2.
Proof.
  revert s. induction l1 as [|x l1 IH]; intros s; [done|].
  cbn [for_each app]. destruct (body s x) as [s'|e]; [apply IH|done].
Qed.

Lemma write_writable a kv :
  writable (length a) kv →
  ∃ i p, feature_index kv.1 = Ok i ∧ position (length a) i = Some p
         ∧ write a kv = Ok (<[p := kv.2]> a).
Proof.
  intros (i & Hi & Hrange). destruct (proj2 (position_Some _ i) Hrange) as [p Hp].
  exists i, p. split; [done|]. split; [done|].
  unfold write. rewrite Hi. cbn. by rewrite setitem_position, Hp.
Qed.

Lemma write_Ok a kv a' :
  write a kv = Ok a' → writable (length a) kv ∧ length a' = length a.
Proof.
  unfold write, writable. destruct (feature_index kv.1) as [i|e]; [|done].
  cbn. rewrite setitem_position.
  destruct (position (length a) i) as [p|] eqn:Hp; [|done]. intros [= <-].
  split; [|apply length_insert]. exists i. split; [done|].
  apply position_Some. by rewrite Hp.
Qed.

Lemma importances_loop_Ok fscores :
  ∀ a a',
    for_each write fscores a = Ok a' →
    Forall (writable (length a)) fscores ∧ length a' = length a.
Proof.
  induction fscores as [|kv fscores IH]; intros a a' Hrun.
  - injection Hrun as <-. by split.
  - cbn [for_each] in Hrun. destruct (write a kv) as [a1|e] eqn:Hw; [|done].
    apply write_Ok in Hw as [Hkv Hlen]. apply IH in Hrun as [Hrest Hlen'].
    rewrite Hlen in Hrest, Hlen'. split; [by constructor|done].
Qed.

Lemma importances_loop_writable fscores :
  ∀ a,
    Forall (writable (length a)) fscores →
    ∃ a', for_each write fscores a = Ok a' ∧ length a' = length a.
Proof.
  induction fscores as [|kv fscores IH]; intros a Hall.
  - by exists a.
  - apply Forall_cons_1 in Hall as [Hkv Hall].
    destruct (write_writable a kv Hkv) as (i & p & _ & _ & Hw).
    cbn [for_each]. rewrite Hw. cbn.
    destruct (IH (<[p := kv.2]> a)) as (a' & Hrun & Hlen).
    { by rewrite length_insert. }
    exists a'. by rewrite length_insert in Hlen.
Qed.

(** With every key naming an index, the loop raises [IndexError] as soon
    as one of the indexes addresses no position of the array. *)
Lemma importances_loop_outside fscores :
  ∀ a,
    Forall (λ kv, ∃ i, feature_index kv.1 = Ok i) fscores →
    Exists (λ kv, ∃ i, feature_index kv.1 = Ok i
                       ∧ ¬ (- Z.of_nat (length a) ≤ i < Z.of_nat (length a)))
           fscores →
    for_each write fscores a = Raise IndexError.
Proof.
  induction fscores as [|kv fscores IH]; intros a Hkeys Hbad.
  - by apply Exists_nil in Hbad.
  - apply Forall_cons_1 in Hkeys as [[i0 Hk] Hkeys]. cbn [for_each].
    unfold write at 1. rewrite Hk. cbn. rewrite setitem_position.
    destruct (position (length a) i0) as [p|] eqn:Hp; [|done].
    cbn. apply IH; [done|]. rewrite length_insert.
    apply Exists_cons in Hbad as [(i & Hk' & Hi)|Hbad]; [|done].
    destruct Hi. apply position_Some. rewrite Hk in Hk'.
    injection Hk' as <-. by rewrite Hp.
Qed.

Lemma feature_importances_fitted n fscores :
  feature_importances_ (fitted n fscores)
  = for_each write fscores (replicate n 0).
Proof. done. Qed.

(** C5, as the code has it. For a fitted model whose score keys name
    distinct features, all of index below the declared count [n], the
    accessor returns a vector of length [n]; position [i] holds the score
    recorded for feature [i], and 0 when none is recorded. With no score
    recorded at all the vector is [n] zeros. *)
Theorem feature_importances_scores (n : nat) (fscores : list (string * Z)) :
  Forall (λ kv, ∃ i, names_feature kv.1 i ∧ (i < n)%nat) fscores →
  NoDup (feature_index ∘ fst <$> fscores) →
  ∃ importances,
    feature_importances_ (fitted n fscores) = Ok importances
    ∧ length importances = n
    ∧ (∀ k v i, (k, v) ∈ fscores → names_feature k i →
                importances !! i = Some v)
    ∧ (∀ i, (i < n)%nat →
            (∀ k v, (k, v) ∈ fscores → ¬ names_feature k i) →
            importances !! i = Some 0)
    ∧ (fscores = [] → importances = replicate n 0).
Proof.
  intros Hkeys Hnd. rewrite feature_importances_fitted.
  destruct (importances_loop fscores (replicate n 0))
    as (a' & Hrun & Hlen & Hset & Hother); [by rewrite length_replicate|done|].
  rewrite length_replicate in Hlen.
  exists a'. split; [done|]. split; [done|]. split; [done|]. split.
  - intros i Hi Hnone. rewrite Hother by done.
    by apply lookup_replicate_2.
  - intros ->. by injection Hrun as <-.
Qed.

Lemma feature_importances_scores_witness :
  ∃ importances,
    feature_importances_ (fitted 3 [("f0", 4); ("f2", 7)]) = Ok importances
    ∧ length importances = 3%nat
    ∧ (∀ k v i, (k, v) ∈ [("f0", 4); ("f2", 7)] → names_feature k i →
                importances !! i = Some v)
    ∧ (∀ i, (i < 3)%nat →
            (∀ k v, (k, v) ∈ [("f0", 4); ("f2", 7)] → ¬ names_feature k i) →
            importances !! i = Some 0)
    ∧ ([("f0", 4); ("f2", 7)] = [] → importances = replicate 3 0).
Proof.
  apply (feature_importances_scores 3 [("f0", 4); ("f2", 7)]).
  - repeat apply Forall_cons_2; [names 0%nat|names 2%nat|constructor].
  - by_decide.
Defined.

(** A key whose tail is a negative literal is written from the end of the
    array, as numpy indexes. *)
Example feature_importances_negative_key :
  feature_importances_ (fitted 3 [("f-1", 4)]) = Ok [0; 0; 4].
Proof. reflexivity. Qed.

(** The claim C5 as first written fails when the booster has a score for a
    feature beyond the declared count: three features declared, a split on
    the fourth recorded, and no vector is returned. *)
Lemma feature_importances_undeclared :
  feature_importances_ (fitted 3 [("f3", 1)]) = Raise IndexError.
Proof. reflexivity. Qed.

(** C6. The accessor needs a fitted model: on a model that was never
    fitted, whatever its declared feature count, fetching the booster
    fails, the error reaches the caller and no vector is returned. *)
Theorem feature_importances_unfitted (self : XGBFeatureSelection) :
  _Booster self = None →
  feature_importances_ self = Raise XGBoostError
  ∧ ∀ importances, feature_importances_ self ≠ Ok importances.
Proof.
  intros Hunfitted.
  assert (feature_importances_ self = Raise XGBoostError) as Hraise.
  { unfold feature_importances_, booster. by rewrite Hunfitted. }
  split; [done|]. intros importances. by rewrite Hraise.
Qed.

Lemma feature_importances_unfitted_witness :
  feature_importances_ {| _n_features := 3; _Booster := None |}
  = Raise XGBoostError
  ∧ ∀ importances,
      feature_importances_ {| _n_features := 3; _Booster := None |}
      ≠ Ok importances.
Proof.
  apply (feature_importances_unfitted {| _n_features := 3; _Booster := None |}).
  reflexivity.
Defined.

(** The claim C9 as first written fails on a key with a negative literal
    beyond the length of the array: the index of [f-4] is -4, which is
    below the declared count 3, and the write [importances[-4]] is out of
    bounds. *)
Lemma feature_importances_negative_index :
  Forall (λ kv, ∃ i, feature_index kv.1 = Ok i ∧ i < 3) [("f-4", 1)]
  ∧ feature_importances_ (fitted 3 [("f-4", 1)]) = Raise IndexError.
Proof.
  split; [|reflexivity]. apply Forall_cons_2; [|constructor].
  exists (-4). split; [reflexivity|lia].
Qed.

(** C9, as the code has it. Let every key of the fitted booster's score
    dictionary name an integer index, and let [n] be the declared count.
    If all these indexes are below [n] and not below [-n], every write is
    within bounds and the accessor returns a vector of length [n]; if one
    of them is [n] or more, or below [-n], the accessor fails with
    [IndexError]. *)
Theorem feature_importances_bounds (n : nat) (fscores : list (string * Z)) :
  Forall (λ kv, ∃ i, feature_index kv.1 = Ok i) fscores →
  (Forall (λ kv, ∀ i, feature_index kv.1 = Ok i →
                      - Z.of_nat n ≤ i < Z.of_nat n) fscores →
   ∃ importances,
     feature_importances_ (fitted n fscores) = Ok importances
     ∧ length importances = n)
  ∧ (Exists (λ kv, ∃ i, feature_index kv.1 = Ok i
                        ∧ (Z.of_nat n ≤ i ∨ i < - Z.of_nat n)) fscores →
     feature_importances_ (fitted n fscores) = Raise IndexError).
Proof.
  intros Hkeys. rewrite feature_importances_fitted. split.
  - intros Hin.
    destruct (importances_loop_writable fscores (replicate n 0))
      as (a' & Hrun & Hlen).
    + rewrite length_replicate. rewrite Forall_forall in Hkeys, Hin.
      apply Forall_forall. intros kv Hkv.
      destruct (Hkeys kv Hkv) as [i Hi]. exists i. split; [done|].
      by apply (Hin kv Hkv).
    + rewrite length_replicate in Hlen. by exists a'.
  - intros Hbad. apply importances_loop_outside; [done|].
    rewrite length_replicate. eapply Exists_impl; [exact Hbad|].
    intros kv (i & Hi & Hout). exists i. split; [done|]. lia.
Qed.

Lemma feature_importances_bounds_witness :
  (∃ importances,
     feature_importances_ (fitted 3 [("f0", 4); ("f-1", 7)]) = Ok importances
     ∧ length importances = 3%nat)
  ∧ feature_importances_ (fitted 3 [("f1", 2); ("f3", 1)]) = Raise IndexError
  ∧ feature_importances_ (fitted 3 [("f1", 2); ("f-4", 1)]) = Raise IndexError.
Proof.
  split; [|split].
  - apply (feature_importances_bounds 3 [("f0", 4); ("f-1", 7)]).
    + repeat apply Forall_cons_2; [by exists 0|by exists (-1)|constructor].
    + repeat apply Forall_cons_2; [| |constructor];
        intros i Hi; index_of Hi; lia.
  - apply (feature_importances_bounds 3 [("f1", 2); ("f3", 1)]).
    + repeat apply Forall_cons_2; [by exists 1|by exists 3|constructor].
    + apply Exists_cons_tl, Exists_cons_hd. exists 3.
      split; [reflexivity|lia].
  - apply (feature_importances_bounds 3 [("f1", 2); ("f-4", 1)]).
    + repeat apply Forall_cons_2; [by exists 1|by exists (-4)|constructor].
    + apply Exists_cons_tl, Exists_cons_hd. exists (-4).
      split; [reflexivity|lia].
Defined.

(** ** Dates *)

Lemma is_leap_spec y :
  _is_leap y = true ↔ y mod 4 = 0 ∧ (y mod 100 ≠ 0 ∨ y mod 400 = 0).
Proof.
  unfold _is_leap.
  destruct (Z.eqb_spec (y mod 4) 0), (Z.eqb_spec (y mod 100) 0),
    (Z.eqb_spec (y mod 400) 0); cbn; intuition congruence.
Qed.

Lemma days_before_year_next y :
  _days_before_year (y + 1)
  = _days_before_year y + (if _is_leap y then 366 else 365).
Proof.
  pose proof (is_leap_spec y) as Hleap. unfold _days_before_year.
  replace (y + 1 - 1) with y by lia.
  destruct (_is_leap y).
  - destruct (proj1 Hleap eq_refl) as [H4 H100]. clear Hleap.
    Z.div_mod_to_equations. lia.
  - assert (¬ (y mod 4 = 0 ∧ (y mod 100 ≠ 0 ∨ y mod 400 = 0))) as Hno
      by (intros H; by apply Hleap in H).
    clear Hleap. Z.div_mod_to_equations. lia.
Qed.

Lemma days_before_year_mono y y' :
  y ≤ y' → _days_before_year y ≤ _days_before_year y'.
Proof.
  intros Hle. unfold _days_before_year. Z.div_mod_to_equations. lia.
Qed.

(** Evaluate the table lookups [nth (Z.to_nat k) ...] at literal months. *)
Ltac lookup_months :=
  repeat match goal with
         | |- context [Z.to_nat ?k] =>
             let n := eval vm_compute in (Z.to_nat k) in
             change (Z.to_nat k) with n
         | H : context [Z.to_nat ?k] |- _ =>
             let n := eval vm_compute in (Z.to_nat k) in
             change (Z.to_nat k) with n in H
         end;
  cbn in *.

Ltac month_cases m :=
  let H := fresh in
  assert (m = 1 ∨ m = 2 ∨ m = 3 ∨ m = 4 ∨ m = 5 ∨ m = 6 ∨ m = 7 ∨ m = 8
          ∨ m = 9 ∨ m = 10 ∨ m = 11 ∨ m = 12) as H by lia;
  repeat (destruct H as [H|H]; [subst m|]); [..|subst m].

(** A valid date lies within its year. *)
Lemma ordinal_in_year a :
  valid a →
  _days_before_year (year a) < toordinal a
  ∧ toordinal a ≤ _days_before_year (year a + 1).
Proof.
  destruct a as [y m d]. unfold valid, toordinal, _ymd2ord. cbn.
  intros (_ & Hm & Hd). rewrite days_before_year_next.
  unfold _days_in_month, _days_before_month in *.
  month_cases m; lookup_months; destruct (_is_leap y); cbn in *; lia.
Qed.

(** Within one year, an earlier month ends before a later one begins. *)
Lemma month_before_month y m d m' :
  1 ≤ m → m < m' → m' ≤ 12 → d ≤ _days_in_month y m →
  _days_before_month y m + d ≤ _days_before_month y m'.
Proof.
  intros Hm Hlt Hm' Hd. unfold _days_in_month, _days_before_month in *.
  month_cases m; month_cases m'; try lia;
    lookup_months; destruct (_is_leap y); cbn in *; lia.
Qed.

(** The ordinal grows with the date. *)
Lemma toordinal_mono a b :
  valid a → valid b → before a b → toordinal a < toordinal b.
Proof.
  intros Ha Hb [Hy|[Hy [Hm|[Hm Hd]]]].
  - pose proof (ordinal_in_year a Ha) as [_ Hhi].
    pose proof (ordinal_in_year b Hb) as [Hlo _].
    pose proof (days_before_year_mono (year a + 1) (year b)). lia.
  - destruct a as [y m d], b as [y' m' d']. cbn in *. subst y'.
    destruct Ha as (_ & Hma & Hda), Hb as (_ & Hmb & Hdb). cbn in *.
    unfold toordinal, _ymd2ord. cbn.
    pose proof (month_before_month y m d m'). lia.
  - destruct a as [y m d], b as [y' m' d']. cbn in *. subst y' m'.
    unfold toordinal, _ymd2ord. cbn. lia.
Qed.

(** The sign of [(a - b).days] tells which date comes first. *)
Lemma days_between_sign a b :
  valid a → valid b →
  (before b a → 0 < days_between a b)
  ∧ (before a b → days_between a b < 0)
  ∧ (a = b → days_between a b = 0).
Proof.
  intros Ha Hb. unfold days_between. split; [|split].
  - intros Hlt. pose proof (toordinal_mono b a Hb Ha Hlt). lia.
  - intros Hlt. pose proof (toordinal_mono a b Ha Hb Hlt). lia.
  - intros ->. lia.
Qed.

(** The ordinal counts days: the next day has the next ordinal. *)
Lemma toordinal_tomorrow a :
  valid a → toordinal (tomorrow a) = toordinal a + 1.
Proof.
  destruct a as [y m d]. unfold valid, tomorrow, toordinal, _ymd2ord. cbn.
  intros (_ & Hm & Hd).
  destruct (Z.ltb_spec d (_days_in_month y m)) as [Hlt|Hge]; cbn; [lia|].
  assert (d = _days_in_month y m) as -> by lia. clear Hd Hge.
  destruct (Z.ltb_spec m 12) as [Hlt|Hge]; cbn.
  - unfold _days_in_month, _days_before_month.
    month_cases m; try lia; lookup_months;
      repeat match goal with
             | |- context [Z.ltb ?a ?b] => destruct (Z.ltb_spec a b); try lia
             end;
      destruct (_is_leap y); cbn; lia.
  - assert (m = 12) as -> by lia. rewrite days_before_year_next.
    unfold _days_in_month, _days_before_month. lookup_months.
    destruct (_is_leap y); cbn; lia.
Qed.

(** ** Holiday distances *)

Section HolidayLoop.

Variable user_date : date.

Implicit Types (df : gmap string Z) (hs : list (date * string)).

Lemma add_holiday_insert df item :
  add_holiday user_date df item
  = <[days_to item.2 := days_between item.1 user_date]> df.
Proof. done. Qed.

(** Labels that are no holiday's column keep their value. *)
Lemma add_holidays_other hs :
  ∀ df label,
    label ∉ (days_to ∘ snd <$> hs) →
    foldl (add_holiday user_date) df hs !! label = df !! label.
Proof.
  induction hs as [|item hs IH]; intros df label Hlabel; [done|].
  rewrite fmap_cons, not_elem_of_cons in Hlabel. destruct Hlabel as [Hne Hrest].
  cbn [foldl]. rewrite IH, add_holiday_insert by done.
  by apply lookup_insert_ne.
Qed.

(** When no two holidays share a column, each column holds the distance to
    its own holiday. *)
Lemma add_holidays_lookup hs :
  ∀ df h name,
    NoDup (days_to ∘ snd <$> hs) → (h, name) ∈ hs →
    foldl (add_holiday user_date) df hs !! days_to name
    = Some (days_between h user_date).
Proof.
  induction hs as [|item hs IH]; intros df h name Hnd Hin.
  - by apply elem_of_nil in Hin.
  - rewrite fmap_cons in Hnd. apply NoDup_cons in Hnd as [Hfresh Hnd].
    cbn [foldl]. apply elem_of_cons in Hin as [<-|Hin]; [|by apply IH].
    rewrite add_holidays_other by done. rewrite add_holiday_insert.
    by apply lookup_insert_eq.
Qed.

(** When moreover the row has none of these columns yet, each holiday adds
    one. *)
Lemma add_holidays_size hs :
  ∀ df,
    NoDup (days_to ∘ snd <$> hs) →
    Forall (λ item, df !! days_to item.2 = None) hs →
    size (foldl (add_holiday user_date) df hs) = (size df + length hs)%nat.
Proof.
  induction hs as [|item hs IH]; intros df Hnd Hnew.
  - cbn. lia.
  - rewrite fmap_cons in Hnd. apply NoDup_cons in Hnd as [Hfresh Hnd].
    apply Forall_cons_1 in Hnew as [Hitem Hnew].
    cbn [foldl length]. rewrite IH, add_holiday_insert; [|done|].
    + rewrite map_size_insert_None by done. lia.
    + rewrite Forall_forall in Hnew. apply Forall_forall. intros item' Hin.
      rewrite add_holiday_insert, lookup_insert_ne; [by apply Hnew|].
      intros Heq. apply Hfresh, list_elem_of_fmap. by exists item'.
Qed.

End HolidayLoop.

Section HolidayClaims.

Variable US : Z → list (date * string).

Implicit Types (df : gmap string Z).

Lemma process_holidays_dated df a :
  dated df a →
  process_holidays US df
  = Ok (foldl (add_holiday a) df (US (year a))).
Proof.
  intros (Hy & Hm & Hd & Ha). unfold process_holidays, field.
  rewrite Hy, Hm, Hd. cbn. unfold Date.make.
  destruct a as [y m d]. cbn. by rewrite decide_True.
Qed.

(** C8, as the code has it. Let the row carry a valid date and let no two
    holidays of its year share a column. Then the generator returns; for the
    date 2015-01-01, with New Year's Day on that date in the calendar, the
    column [days_to_new_years_day] holds 0; and if the row has none of the
    holiday columns yet, it gains as many columns as the calendar has
    holidays for that year. *)
Theorem process_holidays_columns df a :
  dated df a →
  NoDup (days_to ∘ snd <$> US (year a)) →
  ∃ df',
    process_holidays US df = Ok df'
    ∧ (a = new_year_2015 →
       (new_year_2015, "New Year's Day") ∈ US 2015 →
       df' !! "days_to_new_years_day" = Some 0)
    ∧ (Forall (λ item, df !! days_to item.2 = None) (US (year a)) →
       size df' = (size df + length (US (year a)))%nat).
Proof.
  intros Hdated Hnd. eexists. split; [by apply process_holidays_dated|].
  split.
  - intros -> Hin.
    by rewrite (add_holidays_lookup _ _ _ new_year_2015 "New Year's Day").
  - intros Hnew. by apply add_holidays_size.
Qed.

(** C10. Let the row carry a valid date and let no two holidays of its year
    share a column. For every holiday of the year's calendar, the column of
    that holiday holds the holiday's ordinal minus the ordinal of the row's
    date, the number of days from the one to the other: positive when the
    holiday comes after the date, negative when it comes before, zero when
    they are the same day. *)
Theorem holiday_distance df a h name :
  dated df a →
  (h, name) ∈ US (year a) →
  valid h →
  NoDup (days_to ∘ snd <$> US (year a)) →
  ∃ df',
    process_holidays US df = Ok df'
    ∧ df' !! days_to name = Some (toordinal h - toordinal a)
    ∧ (before a h → 0 < toordinal h - toordinal a)
    ∧ (before h a → toordinal h - toordinal a < 0)
    ∧ (h = a → toordinal h - toordinal a = 0).
Proof.
  intros Hdated Hin Hh Hnd. eexists.
  split; [by apply process_holidays_dated|].
  split; [by rewrite (add_holidays_lookup _ _ _ h name)|].
  apply days_between_sign; [done|]. by destruct Hdated as (_ & _ & _ & ?).
Qed.

End HolidayClaims.

Lemma signup_dated y m d :
  valid {| year := y; month := m; day := d |} →
  dated (signup y m d) {| year := y; month := m; day := d |}.
Proof. intros Ha. by repeat split; try apply Ha. Qed.

Lemma process_holidays_columns_witness :
  ∃ df',
    process_holidays calendar_2015 (signup 2015 1 1) = Ok df'
    ∧ df' !! "days_to_new_years_day" = Some 0
    ∧ size df' = (3 + 11)%nat.
Proof.
  destruct (process_holidays_columns calendar_2015 (signup 2015 1 1)
              new_year_2015) as (df' & Hrun & Hzero & Hsize).
  - apply signup_dated. by_decide.
  - by_decide.
  - exists df'. split; [done|]. split.
    + apply Hzero; [done|by_decide].
    + apply Hsize. by_decide.
Defined.

(** The second half of the claim C8 as first written fails on a row that
    already has one of the columns: the calendar has eleven holidays and the
    row gains ten columns. *)
Lemma process_holidays_existing_column :
  ∃ df',
    process_holidays calendar_2015 signup_with_column = Ok df'
    ∧ size df' = (size signup_with_column + 10)%nat
    ∧ length (calendar_2015 2015) = 11%nat.
Proof. eexists. split; [reflexivity|]. split; by vm_compute. Qed.

Lemma holiday_distance_witness :
  ∃ df',
    process_holidays calendar_2015 (signup 2015 3 10) = Ok df'
    ∧ df' !! "days_to_memorial_day" = Some 76
    ∧ df' !! "days_to_new_years_day" = Some (-68).
Proof.
  pose proof (signup_dated 2015 3 10 ltac:(by_decide)) as Hdated.
  destruct (holiday_distance calendar_2015 (signup 2015 3 10) _
              {| year := 2015; month := 5; day := 25 |} "Memorial Day"
              Hdated)
    as (df' & Hrun & Hmemorial & _); [by_decide..|].
  destruct (holiday_distance calendar_2015 (signup 2015 3 10) _
              new_year_2015 "New Year's Day" Hdated)
    as (df'' & Hrun' & Hnew & _); [by_decide..|].
  rewrite Hrun in Hrun'. injection Hrun' as <-.
  exists df'. split; [done|]. split; [exact Hmemorial|exact Hnew].
Defined.

(** * Part III: further properties of the code *)

(** ** One-hot encoding: repeating and reordering names *)

Lemma one_hot_encoding_plain (data : DataFrame) (features : list string) :
  NoDup (labels data) →
  plain data features →
  one_hot_encoding data features
  = if decide (encodable features (columns data))
    then Ok (frame (index data)
               (filter (λ c, c.1 ∉ features) (columns data)
                ++ (features ≫= block data)))
    else Raise KeyError.
Proof.
  destruct data as [idx A]. unfold labels. cbn [columns index].
  intros HA Hmade%plain_plain_in_turn.
  pose proof (one_hot_encoding_run features idx A [] HA) as Hrun.
  rewrite app_nil_r in Hrun. apply Hrun; [by intros ? _ ?%elem_of_nil|done].
Qed.

(** X2. On a table with unique column names, a list that names a column
    twice makes one-hot encoding raise [KeyError] (the second time, the
    column is gone), provided no name of the list is the name of an
    indicator column made for a name of the list. *)
Theorem one_hot_encoding_repeated (data : DataFrame) (features : list string) :
  NoDup (labels data) →
  plain data features →
  ¬ NoDup features →
  one_hot_encoding data features = Raise KeyError.
Proof.
  intros HA Hplain Hrep. rewrite one_hot_encoding_plain by done.
  apply decide_False. by intros [? _].
Qed.

Lemma one_hot_encoding_repeated_witness :
  one_hot_encoding users ["gender"; "gender"] = Raise KeyError.
Proof.
  apply (one_hot_encoding_repeated users ["gender"; "gender"]); by_decide.
Defined.

(** X3. On a table with unique column names, when no name of the list is
    the name of an indicator column made for a name of the list, the table
    one-hot encoding returns has no column named by the list: each encoded
    column is replaced. *)
Theorem one_hot_encoding_replaces (data out : DataFrame)
    (features : list string) (f : string) :
  NoDup (labels data) →
  plain data features →
  one_hot_encoding data features = Ok out →
  f ∈ features →
  f ∉ labels out.
Proof.
  intros HA Hplain Hrun Hf. rewrite one_hot_encoding_plain in Hrun by done.
  case_decide; [|done]. injection Hrun as <-.
  unfold labels. cbn [columns]. rewrite fmap_app, not_elem_of_app. split.
  - rewrite labels_kept. tauto.
  - unfold plain in Hplain. rewrite Forall_forall in Hplain. by apply Hplain.
Qed.

Lemma one_hot_encoding_replaces_witness :
  "gender" ∉ labels (frame [0; 1; 2]
                       [ ("age", IntCol [31; 40; 25]);
                         ("gender_F", IntCol [1; 0; 1]);
                         ("gender_M", IntCol [0; 1; 0]) ]).
Proof.
  apply (one_hot_encoding_replaces users _ ["gender"] "gender");
    [by_decide|by_decide|reflexivity|by_decide].
Defined.

(** X6. On a table with unique column names, for distinct names of its
    columns none of which is the name of an indicator column made for one
    of them, the order of the names only changes the order of the columns:
    two lists with the same names give tables with the same rows and the
    same columns, rearranged. *)
Theorem one_hot_encoding_reordered (data : DataFrame)
    (features features' : list string) :
  NoDup (labels data) →
  encodable features (columns data) →
  plain data features →
  features ≡ₚ features' →
  ∃ out out',
    one_hot_encoding data features = Ok out
    ∧ one_hot_encoding data features' = Ok out'
    ∧ index out = index out'
    ∧ columns out ≡ₚ columns out'.
Proof.
  intros HA [Hnd Hin] Hplain Hperm.
  assert (encodable features' (columns data)) as Henc'.
  { split; by rewrite <- Hperm. }
  assert (plain data features') as Hplain'.
  { unfold plain in *. rewrite <- Hperm.
    eapply Forall_impl; [exact Hplain|]. intros f Hf. cbn in Hf.
    by rewrite <- Hperm. }
  do 2 eexists. rewrite !one_hot_encoding_plain by done.
  rewrite !decide_True by done. split; [done|]. split; [done|].
  split; [done|]. cbn [columns]. f_equiv.
  - erewrite list_filter_iff; [done|]. intros c. cbn. by rewrite Hperm.
  - by rewrite Hperm.
Qed.

Lemma one_hot_encoding_reordered_witness :
  ∃ out out',
    one_hot_encoding users ["gender"; "age"] = Ok out
    ∧ one_hot_encoding users ["age"; "gender"] = Ok out'
    ∧ index out = index out'
    ∧ columns out ≡ₚ columns out'.
Proof.
  apply (one_hot_encoding_reordered users ["gender"; "age"] ["age"; "gender"]);
    [by_decide|by_decide|by_decide|apply Permutation_swap].
Defined.

(** ** One-hot encoding: what the indicator columns hold *)

Lemma indicator_binary {A} `{EqDecision A} (level : A) (values : list A) :
  binary (indicator level values).
Proof.
  eexists. split; [done|].
  apply Forall_fmap, Forall_forall. intros x _. cbn. case_decide; auto.
Qed.

Lemma get_dummies_1d_binary s prefix :
  Forall (λ c, binary c.2) (columns (_get_dummies_1d s prefix)).
Proof.
  destruct s as [idx [values|values]]; cbn;
    apply Forall_fmap, Forall_forall; intros v _; apply indicator_binary.
Qed.

(** A column of the frame a round leaves is a column the round found, as
    it was, or a 0/1 column. *)
Lemma next_frame_binary data f x c :
  getitem data f = Ok x →
  c ∈ columns (next_frame data f x) →
  c ∈ columns data ∨ binary c.2.
Proof.
  intros Hx. unfold next_frame. cbn [columns].
  intros [[_ Hc]%list_elem_of_filter|Hc]%elem_of_app; [by left|].
  apply getitem_Ok in Hx as [(y & Hsel & ->)|(y & y' & l & Hsel & ->)];
    cbn [get_dummies] in Hc.
  - right.
    pose proof (get_dummies_1d_binary
                  {| s_index := index data; s_values := y.2 |} f) as Hbin.
    rewrite Forall_forall in Hbin. by apply Hbin.
  - unfold get_dummies_frame in Hc. cbn [columns index] in Hc.
    apply elem_of_app in Hc as [Hc|Hc].
    + left. apply list_elem_of_filter in Hc as [_ Hc].
      rewrite <- Hsel in Hc. by apply list_elem_of_filter in Hc as [_ Hc].
    + right. apply list_elem_of_bind in Hc as (z & Hc & _).
      pose proof (get_dummies_1d_binary
                    {| s_index := index data; s_values := z.2 |} f) as Hbin.
      rewrite Forall_forall in Hbin. by apply Hbin.
Qed.

(** X4. Whatever the table and the list of names, a run of one-hot
    encoding that returns makes no values of its own other than 0 and 1:
    every column of the table returned is a column of the input, with its
    label and its entries as they were, or an integer column whose entries
    are all 0 or 1. *)
Theorem one_hot_encoding_binary (features : list string) :
  ∀ data out,
    one_hot_encoding data features = Ok out →
    Forall (λ c, c ∈ columns data ∨ binary c.2) (columns out).
Proof.
  induction features as [|f rest IH]; intros data out Hrun.
  - injection Hrun as <-. apply Forall_forall. by left.
  - rewrite one_hot_encoding_cons in Hrun.
    destruct (getitem data f) as [x|e] eqn:Hx; [|done].
    apply IH in Hrun. eapply Forall_impl; [exact Hrun|].
    intros c [Hc|Hc]; [|by right]. by eapply next_frame_binary.
Qed.

Lemma one_hot_encoding_binary_witness :
  Forall (λ c, c ∈ columns users_shared ∨ binary c.2)
         (columns (frame [0; 1]
                     [ ("g_M", IntCol [0; 1]); ("g_F", IntCol [5; 6]);
                       ("g_F", IntCol [1; 0]) ])).
Proof.
  apply (one_hot_encoding_binary ["g"; "g_F"] users_shared). reflexivity.
Defined.

(** X5. The category of a row can be read back from the indicator columns:
    the indicator column made for a name and a category is set in a row
    exactly when that row has this category under the name. *)
Theorem block_decode (data : DataFrame) (f v : string) (c : column) (i : nat) :
  (dummy_name f v, c) ∈ block data f →
  cell c i = Some 1 ↔ category_at data f i = Some v.
Proof.
  unfold block, category_at.
  destruct (getitem data f) as [[[idx [values|values]]|d]|e];
    cbn [columns _get_dummies_1d s_values categories];
    [| |by intros ?%elem_of_nil..].
  - intros (w & [= Hw ->] & _)%list_elem_of_fmap.
    apply (inj (dummy_name f)) in Hw as <-. rewrite cell_indicator.
    destruct (values !! i) as [[w|]|]; cbn; naive_solver.
  - intros (z & [= Hz ->] & _)%list_elem_of_fmap.
    apply (inj (dummy_name f)) in Hz as ->. rewrite cell_indicator.
    rewrite list_lookup_fmap. destruct (values !! i) as [z'|]; cbn; [|done].
    split; [by intros [= ->]|]. by intros [= ->%(inj pretty)].
Qed.

Lemma block_decode_witness :
  cell (IntCol [1; 0; 1]) 2 = Some 1 ↔ category_at users "gender" 2 = Some "F".
Proof. apply (block_decode users "gender" "F"). by_decide. Defined.

(** X7. The indicator columns of a name come in the order of their
    categories: for a column of strings the categories are the distinct
    strings of the column in increasing (byte-wise lexicographic) order,
    for a column of integers the distinct integers in increasing order. *)
Theorem block_sorted (data : DataFrame) (f : string) (s : Series) :
  getitem data f = Ok (OneColumn s) →
  match s_values s with
  | ObjCol values =>
      ∃ levels,
        (block data f).*1 = dummy_name f <$> levels
        ∧ StronglySorted String.le levels
        ∧ NoDup levels
        ∧ ∀ v, v ∈ levels ↔ Some v ∈ values
  | IntCol values =>
      ∃ levels,
        (block data f).*1 = (λ z, dummy_name f (pretty z)) <$> levels
        ∧ StronglySorted Z.le levels
        ∧ NoDup levels
        ∧ ∀ z, z ∈ levels ↔ z ∈ values
  end.
Proof.
  intros Hs. unfold block. rewrite Hs.
  destruct s as [idx [values|values]];
    cbn [columns _get_dummies_1d s_values].
  - exists (levels_obj values). split; [by rewrite <- list_fmap_compose|].
    split; [|split].
    + apply Sorted_StronglySorted; [apply _|]. apply Sorted_merge_sort, _.
    + apply NoDup_levels_obj.
    + apply elem_of_levels_obj.
  - exists (levels_int values). split; [by rewrite <- list_fmap_compose|].
    split; [|split].
    + apply Sorted_StronglySorted; [apply _|]. apply Sorted_merge_sort, _.
    + apply NoDup_levels_int.
    + apply elem_of_levels_int.
Qed.

Lemma block_sorted_witness :
  ∃ levels,
    (block users "gender").*1 = dummy_name "gender" <$> levels
    ∧ StronglySorted String.le levels
    ∧ NoDup levels
    ∧ ∀ v, v ∈ levels ↔ Some v ∈ [Some "F"; Some "M"; Some "F"].
Proof.
  apply (block_sorted users "gender"
           {| s_index := [0; 1; 2];
              s_values := ObjCol [Some "F"; Some "M"; Some "F"] |}).
  reflexivity.
Defined.

(** ** One-hot encoding: the caller's frame and the frame returned *)

Lemma one_hot_encoding_at_cons store data d f rest :
  store !! data = Some d →
  one_hot_encoding_at store data (f :: rest)
  = match getitem d f with
    | Ok x =>
        one_hot_encoding_at
          (<[data := frame (index d) (filter (λ c, c.1 ≠ f) (columns d))]> store
           ++ [next_frame d f x])
          (length store) rest
    | Raise e => (store, Raise e)
    end.
Proof.
  intros Hd. cbn [one_hot_encoding_at]. rewrite Hd.
  destruct (getitem d f) as [x|e] eqn:Hx; [|done].
  unfold drop_label. rewrite decide_True by by eapply getitem_present.
  unfold concat. cbn [index].
  rewrite decide_True by by erewrite get_dummies_index.
  by rewrite length_insert.
Qed.

(** The run only writes to the object [data] names and to objects it
    makes. *)
Lemma one_hot_encoding_at_others features :
  ∀ store data r,
    (r < length store)%nat → r ≠ data →
    (one_hot_encoding_at store data features).1 !! r = store !! r.
Proof.
  induction features as [|f rest IH]; intros store data r Hr Hne; [done|].
  destruct (store !! data) as [d|] eqn:Hd.
  - rewrite (one_hot_encoding_at_cons _ _ d) by done.
    destruct (getitem d f) as [x|e]; [|done].
    rewrite IH.
    + rewrite lookup_app_l by by rewrite length_insert.
      by apply list_lookup_insert_ne.
    + rewrite length_app, length_insert. lia.
    + lia.
  - cbn [one_hot_encoding_at]. by rewrite Hd.
Qed.

Lemma one_hot_encoding_at_grows features :
  ∀ store data,
    (length store ≤ length (one_hot_encoding_at store data features).1)%nat.
Proof.
  induction features as [|f rest IH]; intros store data; [done|].
  destruct (store !! data) as [d|] eqn:Hd.
  - rewrite (one_hot_encoding_at_cons _ _ d) by done.
    destruct (getitem d f) as [x|e]; [|done].
    etrans; [|apply IH]. rewrite length_app, length_insert. lia.
  - cbn [one_hot_encoding_at]. by rewrite Hd.
Qed.

(** X8. The sharing of frames does not change what is returned: run on a
    store where [data] names the frame [d], the function returns a
    reference to the very frame it computes from the value [d], and raises
    the same exception when that computation raises. *)
Theorem one_hot_encoding_at_value (features : list string) :
  ∀ store data d,
    store !! data = Some d →
    match one_hot_encoding d features with
    | Ok out =>
        ∃ ref,
          (one_hot_encoding_at store data features).2 = Ok ref
          ∧ (one_hot_encoding_at store data features).1 !! ref = Some out
    | Raise e => (one_hot_encoding_at store data features).2 = Raise e
    end.
Proof.
  induction features as [|f rest IH]; intros store data d Hd.
  - by exists data.
  - rewrite one_hot_encoding_cons, (one_hot_encoding_at_cons _ _ d) by done.
    destruct (getitem d f) as [x|e]; [|done].
    apply IH. rewrite lookup_app_r by by rewrite length_insert.
    by rewrite length_insert, Nat.sub_diag.
Qed.

Lemma one_hot_encoding_at_value_witness :
  ∃ ref,
    (one_hot_encoding_at [users_shared] 0 ["g"; "g_F"]).2 = Ok ref
    ∧ (one_hot_encoding_at [users_shared] 0 ["g"; "g_F"]).1 !! ref
      = Some (frame [0; 1]
                [ ("g_M", IntCol [0; 1]); ("g_F", IntCol [5; 6]);
                  ("g_F", IntCol [1; 0]) ]).
Proof.
  apply (one_hot_encoding_at_value ["g"; "g_F"] [users_shared] 0%nat
           users_shared).
  reflexivity.
Defined.

(** X9. The call changes the frame the caller passed, when its column
    names are unique: once the first name of the list has been found in it,
    that frame has lost the column of this name, and keeps everything else,
    whether the run then returns or raises; with an empty list, or a first
    name that is not found, the frame is left as it was. *)
Theorem one_hot_encoding_at_caller (features : list string) :
  ∀ store data d,
    store !! data = Some d →
    NoDup (labels d) →
    (one_hot_encoding_at store data features).1 !! data
    = Some (after_call d features).
Proof.
  destruct features as [|f rest]; intros store data d Hd _; [done|].
  rewrite (one_hot_encoding_at_cons _ _ d) by done.
  unfold after_call.
  pose proof (lookup_lt_Some _ _ _ Hd) as Hlt.
  destruct (getitem d f) as [x|e]; [|done].
  rewrite one_hot_encoding_at_others.
  - rewrite lookup_app_l by by rewrite length_insert.
    by apply list_lookup_insert_eq.
  - rewrite length_app, length_insert. lia.
  - lia.
Qed.

Lemma one_hot_encoding_at_caller_witness :
  (one_hot_encoding_at [users] 0 ["gender"; "country"]).1 !! 0%nat
  = Some (frame [0; 1; 2] [("age", IntCol [31; 40; 25])])
  ∧ (one_hot_encoding_at [users] 0 ["gender"; "country"]).2 = Raise KeyError.
Proof.
  split; [|reflexivity].
  apply (one_hot_encoding_at_caller ["gender"; "country"] [users] 0%nat users);
    [reflexivity|by_decide].
Defined.

(** X10. The call touches no other frame of the store: whether the run
    returns or raises, every object that existed before the call, other
    than the one passed, is as it was afterwards, and the run only adds
    objects. *)
Theorem one_hot_encoding_at_frame (features : list string)
    (store : list DataFrame) (data r : nat) :
  (r < length store)%nat → r ≠ data →
  (one_hot_encoding_at store data features).1 !! r = store !! r
  ∧ (length store
     ≤ length (one_hot_encoding_at store data features).1)%nat.
Proof.
  intros Hr Hne. split.
  - by apply one_hot_encoding_at_others.
  - apply one_hot_encoding_at_grows.
Qed.

Lemma one_hot_encoding_at_frame_witness :
  (one_hot_encoding_at [users_shared; users] 0 ["g"; "g_F"]).1 !! 1%nat
  = [users_shared; users] !! 1%nat
  ∧ (length [users_shared; users]
     ≤ length (one_hot_encoding_at [users_shared; users] 0 ["g"; "g_F"]).1)%nat.
Proof.
  apply (one_hot_encoding_at_frame ["g"; "g_F"] [users_shared; users] 0 1);
    [cbn; lia|lia].
Defined.

(** X11. With an empty list the function returns the caller's own frame,
    the same object, and leaves the store as it was; with any other list, a
    run that returns hands back a frame made during the call, which is none
    of the objects that existed before. *)
Theorem one_hot_encoding_at_fresh (features : list string) :
  ∀ store data store' ref,
    (data < length store)%nat →
    one_hot_encoding_at store data features = (store', Ok ref) →
    (features = [] → ref = data ∧ store' = store)
    ∧ (features ≠ [] → (length store ≤ ref < length store')%nat).
Proof.
  induction features as [|f rest IH]; intros store data store' ref Hdata Hrun.
  - injection Hrun as <- <-. split; [done|]. by intros [].
  - split; [done|]. intros _.
    destruct (lookup_lt_is_Some_2 _ _ Hdata) as [d Hd].
    rewrite (one_hot_encoding_at_cons _ _ d) in Hrun by done.
    destruct (getitem d f) as [x|e]; [|done].
    apply IH in Hrun as [Hnil Hcons].
    + destruct rest as [|g rest].
      * destruct Hnil as [-> ->]; [done|].
        rewrite length_app, length_insert. cbn. lia.
      * rewrite length_app, length_insert in Hcons. cbn in Hcons.
        destruct Hcons; [done|]. lia.
    + rewrite length_app, length_insert. cbn. lia.
Qed.

Lemma one_hot_encoding_at_fresh_witness :
  (length [users_shared] ≤ 2
   < length (one_hot_encoding_at [users_shared] 0 ["g"; "g_F"]).1)%nat.
Proof.
  destruct (one_hot_encoding_at_fresh ["g"; "g_F"] [users_shared] 0%nat
              (one_hot_encoding_at [users_shared] 0 ["g"; "g_F"]).1 2%nat)
    as [_ Hfresh]; [cbn; lia|reflexivity|].
  by apply Hfresh.
Defined.

(** ** Feature importances: when the accessor returns, and what it holds *)

(** X12. The accessor returns exactly when every key of the score
    dictionary names an index from [-n] to [n - 1], [n] being the declared
    feature count; the vector it returns then has length [n]. *)
Theorem feature_importances_returns (n : nat) (fscores : list (string * Z)) :
  (Forall (writable n) fscores →
   ∃ importances,
     feature_importances_ (fitted n fscores) = Ok importances
     ∧ length importances = n)
  ∧ (∀ importances,
       feature_importances_ (fitted n fscores) = Ok importances →
       Forall (writable n) fscores ∧ length importances = n).
Proof.
  rewrite feature_importances_fitted. split.
  - intros Hall.
    destruct (importances_loop_writable fscores (replicate n 0))
      as (a' & Hrun & Hlen); [by rewrite length_replicate|].
    rewrite length_replicate in Hlen. by exists a'.
  - intros importances Hrun.
    apply importances_loop_Ok in Hrun. by rewrite length_replicate in Hrun.
Qed.

(** X13. The first key that cannot be written decides the exception: when
    the items before it can all be written, a key whose tail is not a
    decimal integer makes the accessor raise [ValueError], and a key that
    names an index outside [-n .. n - 1] makes it raise [IndexError]. *)
Theorem feature_importances_first_failure (n : nat)
    (good rest : list (string * Z)) (kv : string * Z) :
  Forall (writable n) good →
  ((∀ i, feature_index kv.1 ≠ Ok i) →
   feature_importances_ (fitted n (good ++ kv :: rest)) = Raise ValueError)
  ∧ (∀ i, feature_index kv.1 = Ok i →
          ¬ (- Z.of_nat n ≤ i < Z.of_nat n) →
          feature_importances_ (fitted n (good ++ kv :: rest))
          = Raise IndexError).
Proof.
  intros Hgood. rewrite feature_importances_fitted, for_each_app.
  destruct (importances_loop_writable good (replicate n 0))
    as (a & -> & Hlen); [by rewrite length_replicate|].
  rewrite length_replicate in Hlen. cbn. unfold write at 1 3. split.
  - intros Hbad. destruct (feature_index kv.1) as [i|e] eqn:Hi.
    + by destruct (Hbad i).
    + apply int_raises in Hi as ->. done.
  - intros i -> Hout. cbn. rewrite setitem_position, Hlen.
    destruct (position n i) as [p|] eqn:Hp; [|done].
    destruct Hout. apply position_Some. by rewrite Hp.
Qed.

Lemma feature_importances_first_failure_witness :
  feature_importances_ (fitted 3 [("f0", 4); ("age", 2); ("f7", 1)])
  = Raise ValueError
  ∧ feature_importances_ (fitted 3 [("f0", 4); ("f7", 1); ("age", 2)])
    = Raise IndexError.
Proof.
  split.
  - apply (feature_importances_first_failure 3 [("f0", 4)] [("f7", 1)]
             ("age", 2)).
    + repeat constructor. exists 0. split; [reflexivity|lia].
    + intros i. discriminate.
  - apply (feature_importances_first_failure 3 [("f0", 4)] [("age", 2)]
             ("f7", 1)) with (i := 7).
    + repeat constructor. exists 0. split; [reflexivity|lia].
    + reflexivity.
    + lia.
Defined.

Lemma importances_loop_last fscores :
  ∀ a a' j,
    for_each write fscores a = Ok a' →
    a' !! j = match last_score (length a) fscores j with
              | Some v => Some v
              | None => a !! j
              end.
Proof.
  induction fscores as [|kv fscores IH]; intros a a' j Hrun.
  - by injection Hrun as <-.
  - cbn [for_each] in Hrun. destruct (write a kv) as [a1|e] eqn:Hw; [|done].
    cbn in Hrun. pose proof (write_Ok _ _ _ Hw) as [Hkv Hlen].
    destruct (write_writable a kv Hkv) as (i & p & Hi & Hp & Hw').
    rewrite Hw in Hw'. injection Hw' as ->.
    rewrite (IH _ _ j Hrun), length_insert. cbn [last_score].
    destruct (last_score (length a) fscores j) as [v|]; [done|].
    rewrite Hi, Hp. case_decide as Hj.
    + injection Hj as ->. apply list_lookup_insert_eq.
      by eapply position_bound.
    + apply list_lookup_insert_ne. congruence.
Qed.

(** X14. Whenever the accessor returns, each position of the vector holds
    the score of the last item of the dictionary whose key addresses that
    position (an index [i] from 0 addresses position [i], a negative one
    position [n + i]), and 0 if no item addresses it. *)
Theorem feature_importances_last_write (n : nat)
    (fscores : list (string * Z)) (importances : list Z) (j : nat) :
  feature_importances_ (fitted n fscores) = Ok importances →
  (j < n)%nat →
  importances !! j = Some (default 0 (last_score n fscores j)).
Proof.
  rewrite feature_importances_fitted. intros Hrun Hj.
  rewrite (importances_loop_last _ _ _ j Hrun), length_replicate.
  destruct (last_score n fscores j); [done|].
  by apply lookup_replicate_2.
Qed.

Lemma feature_importances_last_write_witness :
  [0; 9; 4] !! 1%nat
  = Some (default 0 (last_score 3 [("f1", 5); ("f-1", 4); ("f01", 9)] 1)).
Proof.
  apply (feature_importances_last_write 3 [("f1", 5); ("f-1", 4); ("f01", 9)]);
    [reflexivity|lia].
Defined.

(** ** Feature importances: the declared count and the keys *)




(** X16. A classifier is unfitted from its construction on, whatever is
    assigned to [n_features] afterwards: the accessor raises
    [XGBoostError] after the constructor and any sequence of assignments. *)
Theorem feature_importances_constructed (n : nat) (values : list nat) :
  feature_importances_ (foldl n_features_setter (__init__ n) values)
  = Raise XGBoostError.
Proof.
  assert (∀ self, _Booster (foldl n_features_setter self values)
                  = _Booster self) as Hkept.
  { induction values as [|v values IH]; intros self; [done|].
    cbn [foldl]. by rewrite IH. }
  unfold feature_importances_, booster. by rewrite Hkept.
Qed.

(** ** Keys of the booster: printing an index and reading it back *)

Lemma digits_app acc l1 l2 :
  Str.digits acc (l1 ++ l2) = Str.digits acc l1 ≫= λ a, Str.digits a l2.
Proof.
  revert acc. induction l1 as [|c l1 IH]; intros acc; [done|].
  cbn. destruct (Str.isdigit c); [apply IH|done].
Qed.

Lemma pretty_N_char_digit (d : N) :
  (d < 10)%N →
  Str.isdigit (pretty_N_char d) = true
  ∧ Str.digit_value (pretty_N_char d) = Z.of_N d
  ∧ Ascii.is_space (pretty_N_char d) = false.
Proof.
  intros Hd.
  assert (d = 0 ∨ d = 1 ∨ d = 2 ∨ d = 3 ∨ d = 4 ∨ d = 5 ∨ d = 6 ∨ d = 7
          ∨ d = 8 ∨ d = 9)%N as Hcases by lia.
  repeat (destruct Hcases as [->|Hcases]; [by vm_compute|]).
  subst d. by vm_compute.
Qed.

Lemma pretty_N_go_chars (x : N) :
  ∀ s, list_ascii_of_string (pretty_N_go x s)
       = list_ascii_of_string (pretty_N_go x "") ++ list_ascii_of_string s.
Proof.
  induction (N.lt_wf_0 x) as [x _ IH]. intros s.
  destruct (decide (x = 0)%N) as [->|Hx].
  - by rewrite !pretty_N_go_0.
  - rewrite (pretty_N_go_step x s), (pretty_N_go_step x "") by lia.
    assert (x `div` 10 < x)%N as Hlt by (apply N.div_lt; lia).
    rewrite (IH _ Hlt (String _ s)), (IH _ Hlt (String _ "")).
    by rewrite <- (assoc_L (++)).
Qed.

(** The digits of a number are read back to it, and none is white
    space. *)
Lemma pretty_N_go_digits (x : N) :
  Str.digits 0 (list_ascii_of_string (pretty_N_go x "")) = Some (Z.of_N x)
  ∧ Forall (λ c, Ascii.is_space c = false)
           (list_ascii_of_string (pretty_N_go x ""))
  ∧ (x ≠ 0%N → list_ascii_of_string (pretty_N_go x "") ≠ [])
  ∧ Forall (λ c, Str.isdigit c = true)
           (list_ascii_of_string (pretty_N_go x "")).
Proof.
  induction (N.lt_wf_0 x) as [x _ IH].
  destruct (decide (x = 0)%N) as [->|Hx].
  - rewrite pretty_N_go_0. by repeat split.
  - rewrite (pretty_N_go_step x "") by lia.
    assert (x `div` 10 < x)%N as Hlt by (apply N.div_lt; lia).
    destruct (IH _ Hlt) as (Hval & Hspace & _ & Hdig).
    destruct (pretty_N_char_digit (x `mod` 10)) as (Hd & Hv & Hs).
    { by apply N.mod_lt. }
    rewrite pretty_N_go_chars. cbn [list_ascii_of_string].
    split; [|split; [|split]].
    + rewrite digits_app, Hval. cbn. rewrite Hd, Hv.
      f_equal. rewrite (N.div_mod x 10) at 3 by done. lia.
    + apply Forall_app. split; [done|]. by repeat constructor.
    + intros _. by destruct (list_ascii_of_string (pretty_N_go _ "")).
    + apply Forall_app. split; [done|]. by repeat constructor.
Qed.

Lemma lstrip_id cs :
  Forall (λ c, Ascii.is_space c = false) cs → Str.lstrip cs = cs.
Proof.
  intros [|c cs' Hc _]; [done|]. cbn [Str.lstrip]. by rewrite Hc.
Qed.

Lemma strip_id cs :
  Forall (λ c, Ascii.is_space c = false) cs → Str.strip cs = cs.
Proof.
  intros Hcs. unfold Str.strip. rewrite (lstrip_id cs) by done.
  rewrite lstrip_id by by apply Forall_reverse. apply reverse_involutive.
Qed.

Lemma unsigned_digit c cs (A : Type) (neg pos other : A) :
  Str.isdigit c = true →
  match c :: cs with
  | "-"%char :: _ => neg
  | "+"%char :: _ => pos
  | _ => other
  end = other.
Proof. by destruct c as [[] [] [] [] [] [] [] []]. Qed.

Lemma int_pretty_N (x : N) : Str.int (pretty x) = Ok (Z.of_N x).
Proof.
  unfold pretty, pretty_N. case_decide as Hx; [by subst|].
  destruct (pretty_N_go_digits x) as (Hval & Hspace & Hne & Hdig).
  unfold Str.int. rewrite strip_id by done.
  destruct (list_ascii_of_string (pretty_N_go x "")) as [|c cs] eqn:Hcs.
  { by destruct Hne. }
  apply Forall_cons_1 in Hdig as [Hc _].
  assert (Str.number (c :: cs) = Some (Z.of_N x)) as Hnum by done.
  destruct c as [[] [] [] [] [] [] [] []]; try done; by rewrite Hnum.
Qed.

(** X17. Printing an integer in decimal and reading it with [int] gives
    the integer back; so the key made of any one character followed by the
    decimal of [i], such as the booster's [f0], [f1], ..., names the
    index [i]. *)
Theorem feature_index_pretty (c : ascii) (i : Z) :
  Str.int (pretty i) = Ok i ∧ feature_index (String c (pretty i)) = Ok i.
Proof.
  assert (Str.int (pretty i) = Ok i) as Hint; [|by split].
  destruct i as [|p|p].
  - done.
  - apply (int_pretty_N (N.pos p)).
  - pose proof (int_pretty_N (N.pos p)) as Hpos.
    unfold pretty, pretty_Z, pretty, pretty_positive, pretty, pretty_N in *.
    rewrite decide_False in * by done.
    destruct (pretty_N_go_digits (N.pos p)) as (Hval & Hspace & Hne & Hdig).
    unfold Str.int in *. rewrite strip_id in Hpos by done.
    change (list_ascii_of_string ("-" +:+ ?s))
      with ("-"%char :: list_ascii_of_string s).
    rewrite strip_id by (by constructor).
    destruct (list_ascii_of_string (pretty_N_go (N.pos p) "")) as [|d ds] eqn:Hds.
    { by destruct Hne. }
    apply Forall_cons_1 in Hdig as [Hd _].
    rewrite unsigned_digit in Hpos by done.
    destruct (Str.number (d :: ds)) as [z|]; [|done].
    by injection Hpos as ->.
Qed.

(** ** Sanitized names: concatenation, underscores and a second pass *)

Lemma chars_app (a b : string) :
  list_ascii_of_string (a +:+ b)
  = list_ascii_of_string a ++ list_ascii_of_string b.
Proof.
  induction a as [|c a IH]; [done|].
  change (String c a +:+ b) with (String c (a +:+ b)). cbn. by rewrite IH.
Qed.

Lemma chars_inj (a b : string) :
  list_ascii_of_string a = list_ascii_of_string b → a = b.
Proof.
  intros Heq. rewrite <- (string_of_list_ascii_of_string a),
    <- (string_of_list_ascii_of_string b). by rewrite Heq.
Qed.

(** X18. Sanitizing works character by character: the sanitized form of
    two names put together is the two sanitized forms put together. *)
Theorem sanitize_holiday_name_app (a b : string) :
  _sanitize_holiday_name (a +:+ b)
  = _sanitize_holiday_name a +:+ _sanitize_holiday_name b.
Proof.
  apply chars_inj. rewrite chars_app, !sanitize_chars, chars_app.
  by rewrite List.filter_app, fmap_app.
Qed.

Lemma underscore_from_space c :
  kept c = true →
  Ascii.eqb "_" (sanitized_char c) = Ascii.eqb " " c.
Proof. by destruct c as [[] [] [] [] [] [] [] []]. Qed.

Lemma space_kept c : Ascii.eqb " " c = true → kept c = true.
Proof. by destruct c as [[] [] [] [] [] [] [] []]. Qed.

(** X19. A sanitized name is as long as the name has letters, digits and
    spaces, and has exactly as many underscores as the name has spaces:
    spaces are not collapsed, each one gives one underscore. *)
Theorem sanitize_holiday_name_counts (name : string) :
  String.length (_sanitize_holiday_name name)
  = length (List.filter kept (list_ascii_of_string name))
  ∧ occurrences "_" (_sanitize_holiday_name name) = occurrences " " name.
Proof.
  split.
  - rewrite <- (string_of_list_ascii_of_string (_sanitize_holiday_name name)).
    rewrite sanitize_chars.
    generalize (List.filter kept (list_ascii_of_string name)).
    intros l. induction l as [|c l IH]; [done|]. cbn. by rewrite IH.
  - unfold occurrences. rewrite sanitize_chars.
    induction (list_ascii_of_string name) as [|c l IH]; [done|].
    cbn [List.filter]. destruct (kept c) eqn:Hc.
    + cbn [fmap list_fmap List.filter]. rewrite underscore_from_space by done.
      destruct (Ascii.eqb " " c); cbn [length]; by rewrite <- IH.
    + destruct (Ascii.eqb " " c) eqn:Hs; [|done].
      apply space_kept in Hs. congruence.
Qed.

Lemma second_pass c :
  name_char c = true →
  kept c = negb (Ascii.eqb c "_")
  ∧ (kept c = true → sanitized_char c = c).
Proof. by destruct c as [[] [] [] [] [] [] [] []]. Qed.

Lemma sanitized_plain c :
  Str.islower c || Str.isdigit c = true →
  kept c = true ∧ sanitized_char c = c.
Proof. by destruct c as [[] [] [] [] [] [] [] []]. Qed.

(** X20. Sanitizing is not idempotent: a second pass deletes the
    underscores the first one made and nothing else. A name made of
    lower-case letters and digits only is left as it is. *)
Theorem sanitize_holiday_name_twice (name : string) :
  list_ascii_of_string (_sanitize_holiday_name (_sanitize_holiday_name name))
  = List.filter (λ c, negb (Ascii.eqb c "_"))
                (list_ascii_of_string (_sanitize_holiday_name name))
  ∧ (Forall (λ c, Str.islower c || Str.isdigit c = true)
            (list_ascii_of_string name) →
     _sanitize_holiday_name name = name).
Proof.
  split.
  - rewrite (sanitize_chars (_sanitize_holiday_name name)).
    assert (Forall (λ c, name_char c = true)
              (list_ascii_of_string (_sanitize_holiday_name name))) as Hall.
    { rewrite sanitize_chars. apply Forall_fmap, Forall_forall.
      intros c Hc. apply list_elem_of_In, filter_In in Hc as [_ Hc].
      by apply sanitized_char_ok. }
    induction Hall as [|c l Hc _ IH]; [done|].
    destruct (second_pass c Hc) as [Hkept Hfix]. cbn [List.filter].
    rewrite <- Hkept. destruct (kept c); [|done].
    cbn [fmap list_fmap]. by rewrite Hfix, <- IH.
  - intros Hall. apply chars_inj. rewrite sanitize_chars.
    induction Hall as [|c l Hc _ IH]; [done|].
    destruct (sanitized_plain c Hc) as [Hkept Hfix]. cbn [List.filter].
    rewrite Hkept. cbn [fmap list_fmap]. by rewrite Hfix, IH.
Qed.

Example sanitize_twice_new_year :
  _sanitize_holiday_name (_sanitize_holiday_name "New Year's Day")
  = "newyearsday".
Proof. reflexivity. Qed.

(** ** Dates: distances *)

Lemma before_trichotomy (a b : date) : before a b ∨ a = b ∨ before b a.
Proof.
  destruct a as [y m d], b as [y' m' d']. unfold before. cbn.
  destruct (Z.lt_trichotomy y y') as [?|[->|?]]; [tauto| |tauto].
  destruct (Z.lt_trichotomy m m') as [?|[->|?]]; [tauto| |tauto].
  destruct (Z.lt_trichotomy d d') as [?|[->|?]]; tauto.
Qed.

(** X26. The distance between two valid dates is zero only when they are
    the same day: two different days never have the same ordinal. *)
Theorem days_between_zero (a b : date) :
  valid a → valid b → days_between a b = 0 → a = b.
Proof.
  intros Ha Hb Hzero. unfold days_between in Hzero.
  destruct (before_trichotomy a b) as [Hlt|[Heq|Hlt]]; [|done|].
  - pose proof (toordinal_mono a b Ha Hb Hlt). lia.
  - pose proof (toordinal_mono b a Hb Ha Hlt). lia.
Qed.

Lemma days_between_zero_witness :
  new_year_2015 = {| year := 2015; month := 1; day := 1 |}.
Proof.
  apply (days_between_zero new_year_2015
           {| year := 2015; month := 1; day := 1 |}); [by_decide..|reflexivity].
Defined.

(** X27. The distance counts days: from a valid date to the day after it
    (the next day of the month, the first of the next month after the last
    day of a month, the first of January after the 31st of December) the
    distance is 1, and the day after is a valid date that comes later,
    except after the last day of the year 9999. *)
Theorem days_between_tomorrow (a : date) :
  valid a →
  days_between (tomorrow a) a = 1
  ∧ before a (tomorrow a)
  ∧ (a ≠ {| year := 9999; month := 12; day := 31 |} → valid (tomorrow a)).
Proof.
  intros Ha. split; [|split].
  - unfold days_between. rewrite toordinal_tomorrow by done. lia.
  - destruct a as [y m d]. unfold tomorrow, before. cbn.
    destruct (Z.ltb_spec d (_days_in_month y m)); cbn; [lia|].
    destruct (Z.ltb_spec m 12); cbn; lia.
  - destruct a as [y m d]. unfold valid, tomorrow in *. cbn in *.
    destruct Ha as (Hy & Hm & Hd). intros Hlast.
    destruct (Z.ltb_spec d (_days_in_month y m)) as [Hlt|Hge]; cbn; [lia|].
    destruct (Z.ltb_spec m 12) as [Hlt|Hge']; cbn.
    + split; [done|]. split; [lia|]. unfold _days_in_month.
      month_cases m; try lia; lookup_months;
        repeat match goal with
               | |- context [Z.eqb ?x ?y] => destruct (Z.eqb_spec x y); try lia
               end;
        destruct (_is_leap y); cbn; lia.
    + assert (m = 12) as -> by lia.
      assert (d = 31) as ->.
      { unfold _days_in_month in *. lookup_months. lia. }
      assert (y ≠ 9999) by congruence.
      split; [lia|]. split; [lia|]. unfold _days_in_month. lookup_months. lia.
Qed.

Lemma days_between_tomorrow_witness :
  days_between (tomorrow {| year := 2016; month := 2; day := 28 |})
               {| year := 2016; month := 2; day := 28 |} = 1
  ∧ before {| year := 2016; month := 2; day := 28 |}
           (tomorrow {| year := 2016; month := 2; day := 28 |})
  ∧ ({| year := 2016; month := 2; day := 28 |}
     ≠ {| year := 9999; month := 12; day := 31 |} →
     valid (tomorrow {| year := 2016; month := 2; day := 28 |})).
Proof.
  apply (days_between_tomorrow {| year := 2016; month := 2; day := 28 |}).
  by_decide.
Defined.

(** X28. Within one year no distance exceeds 365 days: for two valid dates
    of the same year the distance lies between -365 and 365. *)
Theorem days_between_same_year (a b : date) :
  valid a → valid b → year a = year b →
  -365 ≤ days_between a b ≤ 365.
Proof.
  intros Ha Hb Hy. unfold days_between.
  pose proof (ordinal_in_year a Ha) as [Hlo Hhi].
  pose proof (ordinal_in_year b Hb) as [Hlo' Hhi'].
  rewrite <- Hy in Hlo', Hhi'. rewrite days_before_year_next in Hhi, Hhi'.
  destruct (_is_leap (year a)); lia.
Qed.

Lemma days_between_same_year_witness :
  -365 ≤ days_between {| year := 2015; month := 12; day := 25 |}
                      new_year_2015 ≤ 365.
Proof.
  apply (days_between_same_year {| year := 2015; month := 12; day := 25 |}
           new_year_2015); [by_decide..|reflexivity].
Defined.

(** ** Holiday distances: errors, labels and running twice *)

Section HolidayRuns.

Variable US : Z → list (date * string).

Implicit Types (df : gmap string Z) (hs : list (date * string)).

Lemma add_holidays_last (u : date) hs :
  ∀ df label,
    foldl (add_holiday u) df hs !! label
    = match last_distance u hs label with
      | Some v => Some v
      | None => df !! label
      end.
Proof.
  induction hs as [|item hs IH]; intros df label; [done|].
  cbn [foldl last_distance]. rewrite IH.
  destruct (last_distance u hs label); [done|].
  rewrite add_holiday_insert. case_decide as Hlabel.
  - subst label. apply lookup_insert_eq.
  - by apply lookup_insert_ne.
Qed.

Lemma add_holidays_dom (u : date) hs :
  ∀ df,
    dom (foldl (add_holiday u) df hs)
    = dom df ∪ list_to_set (days_to ∘ snd <$> hs).
Proof.
  induction hs as [|item hs IH]; intros df.
  - cbn. by rewrite (right_id_L ∅ (∪)).
  - cbn [foldl]. rewrite IH, add_holiday_insert, dom_insert_L.
    rewrite fmap_cons, list_to_set_cons. cbn.
    by rewrite (comm_L (∪) {[_]} (dom df)), (assoc_L (∪)).
Qed.

Lemma last_distance_None (u : date) hs label :
  label ∉ (days_to ∘ snd <$> hs) → last_distance u hs label = None.
Proof.
  induction hs as [|item hs IH]; [done|].
  rewrite fmap_cons, not_elem_of_cons. intros [Hne Hrest].
  cbn [last_distance]. rewrite IH by done. by rewrite decide_False.
Qed.

(** No holiday column is one of the three fields of the date. *)
Lemma days_to_not_field name :
  days_to name ≠ "year_account_created"
  ∧ days_to name ≠ "month_account_created"
  ∧ days_to name ≠ "day_account_created".
Proof.
  unfold days_to.
  repeat split; intros Heq; vm_compute in Heq; discriminate.
Qed.

Lemma last_distance_field (u : date) hs label :
  label = "year_account_created" ∨ label = "month_account_created"
  ∨ label = "day_account_created" →
  last_distance u hs label = None.
Proof.
  intros Hlabel. apply last_distance_None.
  intros (item & Heq & _)%list_elem_of_fmap. cbn in Heq.
  destruct (days_to_not_field item.2) as (Hy & Hm & Hd).
  destruct Hlabel as [-> | [-> | ->]]; congruence.
Qed.

Lemma add_holidays_size_le (u : date) hs :
  ∀ df, (size (foldl (add_holiday u) df hs) ≤ size df + length hs)%nat.
Proof.
  induction hs as [|item hs IH]; intros df; [cbn [foldl length]; lia|].
  cbn [foldl length]. etrans; [apply IH|]. rewrite add_holiday_insert.
  pose proof (map_size_insert (days_to item.2)
                (days_between item.1 u) df) as Hsize.
  destruct (df !! days_to item.2); unfold id in Hsize; lia.
Qed.

Lemma process_holidays_Ok df df' :
  process_holidays US df = Ok df' →
  ∃ a, dated df a ∧ df' = foldl (add_holiday a) df (US (year a)).
Proof.
  unfold process_holidays, field, Date.make.
  destruct (df !! "year_account_created") as [y|] eqn:Hy; [|done].
  destruct (df !! "month_account_created") as [m|] eqn:Hm; [|done].
  destruct (df !! "day_account_created") as [d|] eqn:Hd; [|done].
  cbn. case_decide as Ha; [|done]. cbn. intros [= <-].
  by exists {| year := y; month := m; day := d |}.
Qed.


(** X22. The labels of the row the generator returns are the labels the
    row had and one label [days_to_...] per sanitized holiday name of the
    year's calendar, whatever the names; so the row gains at most as many
    columns as the calendar has holidays. *)
Theorem process_holidays_labels df df' :
  process_holidays US df = Ok df' →
  ∃ a,
    dated df a
    ∧ dom df' = dom df ∪ list_to_set (days_to ∘ snd <$> US (year a))
    ∧ (size df' ≤ size df + length (US (year a)))%nat.
Proof.
  intros (a & Ha & ->)%process_holidays_Ok. exists a. split; [done|].
  split; [apply add_holidays_dom|apply add_holidays_size_le].
Qed.

(** X23. The generator only writes holiday columns: every field that is
    not the column of a holiday of the year keeps its value, and the three
    fields of the date always do. *)
Theorem process_holidays_keeps df df' :
  process_holidays US df = Ok df' →
  ∃ a,
    dated df' a
    ∧ dated df a
    ∧ ∀ label,
        label ∉ (days_to ∘ snd <$> US (year a)) → df' !! label = df !! label.
Proof.
  intros (a & Ha & ->)%process_holidays_Ok. exists a.
  split; [|split; [exact Ha|]].
  - destruct Ha as (Hy & Hm & Hd & Ha). unfold dated.
    rewrite !add_holidays_last, !last_distance_field by auto. done.
  - intros label Hlabel. by rewrite add_holidays_last, last_distance_None.
Qed.

(** X24. When two holidays of the year share a column, the column holds
    the distance to the one the calendar yields last: whenever the
    generator returns, each label holds the distance of the last holiday
    written to it, or the value the row had if no holiday is written
    there. *)
Theorem process_holidays_last_write df df' (label : string) :
  process_holidays US df = Ok df' →
  ∃ a,
    dated df a
    ∧ df' !! label
      = match last_distance a (US (year a)) label with
        | Some v => Some v
        | None => df !! label
        end.
Proof.
  intros (a & Ha & ->)%process_holidays_Ok. exists a. split; [done|].
  apply add_holidays_last.
Qed.

(** X25. Running the generator on its own result changes nothing: the
    second run returns the row the first one returned. *)
Theorem process_holidays_twice df df' :
  process_holidays US df = Ok df' →
  process_holidays US df' = Ok df'.
Proof.
  intros (a & Ha & ->)%process_holidays_Ok.
  assert (dated (foldl (add_holiday a) df (US (year a))) a) as Ha'.
  { destruct Ha as (Hy & Hm & Hd & Ha). unfold dated.
    rewrite !add_holidays_last, !last_distance_field by auto. done. }
  rewrite (process_holidays_dated US _ a Ha'). f_equal.
  apply map_eq. intros label. rewrite !add_holidays_last.
  by destruct (last_distance a (US (year a)) label).
Qed.

End HolidayRuns.

Lemma process_holidays_labels_witness :
  ∃ a,
    dated signup_with_column a
    ∧ dom (foldl (add_holiday new_year_2015) signup_with_column us_2015)
      = dom signup_with_column
        ∪ list_to_set (days_to ∘ snd <$> calendar_2015 (year a))
    ∧ (size (foldl (add_holiday new_year_2015) signup_with_column us_2015)
       ≤ size signup_with_column + length (calendar_2015 (year a)))%nat.
Proof.
  apply (process_holidays_labels calendar_2015 signup_with_column). reflexivity.
Defined.

Lemma process_holidays_keeps_witness :
  ∃ a,
    dated (foldl (add_holiday new_year_2015) (signup 2015 1 1) us_2015) a
    ∧ dated (signup 2015 1 1) a
    ∧ ∀ label,
        label ∉ (days_to ∘ snd <$> calendar_2015 (year a)) →
        foldl (add_holiday new_year_2015) (signup 2015 1 1) us_2015 !! label
        = signup 2015 1 1 !! label.
Proof. apply (process_holidays_keeps calendar_2015 (signup 2015 1 1)). reflexivity. Defined.

Lemma process_holidays_last_write_witness :
  ∃ a,
    dated signup_with_column a
    ∧ foldl (add_holiday new_year_2015) signup_with_column us_2015
      !! "days_to_new_years_day"
      = match last_distance a (calendar_2015 (year a))
                "days_to_new_years_day" with
        | Some v => Some v
        | None => signup_with_column !! "days_to_new_years_day"
        end.
Proof.
  apply (process_holidays_last_write calendar_2015 signup_with_column). reflexivity.
Defined.

Lemma process_holidays_twice_witness :
  process_holidays calendar_2015
    (foldl (add_holiday new_year_2015) (signup 2015 1 1) us_2015)
  = Ok (foldl (add_holiday new_year_2015) (signup 2015 1 1) us_2015).
Proof.
  apply (process_holidays_twice calendar_2015 (signup 2015 1 1)). reflexivity.
Defined.

(** ** One-hot encoding: a column without values *)

(** X29. A name whose column has no value in any row (all values missing,
    or a table without rows) gets no indicator column, and only then: the
    column is dropped and nothing replaces it. *)
Theorem block_empty (data : DataFrame) (f : string) :
  block data f = [] ↔ ∀ i, category_at data f i = None.
Proof.
  split.
  - intros Hempty i. destruct (category_at data f i) as [v|] eqn:Hv; [|done].
    assert (dummy_name f v ∈ (block data f).*1) as Hin
      by (apply block_labels; by exists v, i).
    rewrite Hempty in Hin. by apply elem_of_nil in Hin.
  - intros Hnone. destruct (block data f) as [|[l c] cols] eqn:Hblock; [done|].
    assert (l ∈ (block data f).*1) as Hin by (rewrite Hblock; by left).
    apply block_labels in Hin as (v & i & Hv & _). by rewrite Hnone in Hv.
Qed.
